(** * mt-redis: string commands (t_string.c) and worker threads (q_thread.c)

    A shallow embedding of the two source files and the properties their
    specification states about them.

    Conventions of the embedding.
    - C integers are [Z]; every conversion between a signed and an unsigned
      64-bit type is written out with [to_ll] and [to_size_t] (LP64: [long],
      [long long] and [size_t] are 64 bits wide).
    - An [sds] buffer is the list of its bytes; its length is the list's.
    - The keyspace stores objects by value.  [incrRefCount]/[decrRefCount]
      pairs that only hand a command-local temporary over to the keyspace
      (dupStringObject ... setKey ... decrRefCount) are allocator
      book-keeping and are not threaded through the state: a stored object
      carries the count it has once the command has returned.
    - A command is a function from the client (argument vector, command
      name) and the state (database, dirty counter, reply sink,
      notification sink, writer-side RCU trace) to the next state.
    - incrbyfloatCommand, whose arithmetic is [long double], is left out. *)

From Stdlib Require Import ZArith Lia DecimalString DecimalZ DecimalPos.
From Stdlib.Strings Require Import Byte.
From stdpp Require Import gmap strings list.

Open Scope Z_scope.

(** ** Machine integers *)

Definition LLONG_MAX : Z := 9223372036854775807.
Definition LLONG_MIN : Z := -9223372036854775808.
Definition LONG_MAX : Z := LLONG_MAX.
Definition LONG_MIN : Z := LLONG_MIN.

(** Conversion of an integer to [size_t] / [unsigned long long]. *)
Definition to_size_t (z : Z) : Z := z mod 2 ^ 64.

(** Conversion of an integer to [long long] (two's complement). *)
Definition to_ll (z : Z) : Z := (z + 2 ^ 63) mod 2 ^ 64 - 2 ^ 63.

Definition in_ll (z : Z) : Prop := LLONG_MIN <= z <= LLONG_MAX.

(** Linear arithmetic over the bounds of the 64-bit types. *)
Ltac ll_lia :=
  unfold in_ll, LONG_MIN, LONG_MAX, LLONG_MIN, LLONG_MAX in *; lia.

(** Return codes of server.h. *)
Inductive status := C_OK | C_ERR.

Global Instance status_eq_dec : EqDecision status.
Proof. solve_decision. Defined.

(** ** Bytes and sds buffers *)

Global Instance byte_eq_dec : EqDecision byte := Byte.byte_eq_dec.
Global Instance byte_countable : Countable byte :=
  inj_countable Byte.to_N Byte.of_N Byte.of_to_N.

Definition sds := list byte.

(** ** q_thread.c *)
Module QThread.

(** [void *(*q_thread_func_run)(void *)]: an entry function from the opaque
    argument to the thread's exit value; a null pointer is [None]. *)
Definition q_thread_func_run := option Z -> option Z.

Record q_thread := mk_q_thread {
  id : Z;
  thread_id : Z;                           (* pthread_t *)
  fun_run : option q_thread_func_run;
  data : option Z;                         (* void * *)
  cpu_id : Z
}.

(** An OS thread created by pthread_create: the descriptor its trampoline
    received. *)
Record os_thread := mk_os_thread {
  tid : Z;
  started_with : q_thread
}.

(** The operating system as q_thread.c calls it: the threads created so far
    and what decides the two calls that can fail, namely the number of
    threads the process may have (pthread_create fails with EAGAIN once it
    is reached) and the CPUs a thread may be bound to
    (pthread_setaffinity_np fails with EINVAL when the mask names none of
    them). *)
Record os_state := mk_os {
  threads : list os_thread;
  max_threads : nat;
  cpu_allowed : Z -> bool
}.

Definition add_thread (th : os_thread) (os : os_state) : os_state :=
  mk_os (threads os ++ [th]) (max_threads os) (cpu_allowed os).

Definition EAGAIN : Z := 11.

(** The result of running C code that dereferences a pointer: it returns,
    or it accesses a field through a null pointer. *)
Inductive outcome (A : Type) : Type :=
| Returns (a : A)
| NullDereference.
Arguments Returns {A} a.
Arguments NullDereference {A}.

Global Instance outcome_ret : MRet outcome := fun A a => Returns a.
Global Instance outcome_bind : MBind outcome := fun A B f m =>
  match m with
  | Returns a => f a
  | NullDereference => NullDereference
  end.

(** A [q_thread *] is [None] when null, else the descriptor it points to. *)
Definition q_thread_ptr := option q_thread.

(** [thread->f = v] and [thread->f] for each field accessed. *)
Definition store (upd : q_thread -> q_thread) (thread : q_thread_ptr)
  : outcome q_thread_ptr :=
  match thread with
  | None => NullDereference
  | Some t => Returns (Some (upd t))
  end.

Definition load {A} (get : q_thread -> A) (thread : q_thread_ptr)
  : outcome A :=
  match thread with
  | None => NullDereference
  | Some t => Returns (get t)
  end.

Definition set_id v t := mk_q_thread v (thread_id t) (fun_run t) (data t) (cpu_id t).
Definition set_thread_id v t := mk_q_thread (id t) v (fun_run t) (data t) (cpu_id t).
Definition set_fun_run v t := mk_q_thread (id t) (thread_id t) v (data t) (cpu_id t).
Definition set_data v t := mk_q_thread (id t) (thread_id t) (fun_run t) v (cpu_id t).
Definition set_cpu_id v t := mk_q_thread (id t) (thread_id t) (fun_run t) (data t) v.

Definition is_null (thread : q_thread_ptr) : bool :=
  match thread with None => true | Some _ => false end.

Definition q_thread_init (thread : q_thread_ptr)
  : outcome (status * q_thread_ptr) :=
  if is_null thread then mret (C_ERR, thread)
  else
    thread ← store (set_id 0) thread;
    thread ← store (set_thread_id 0) thread;
    thread ← store (set_fun_run None) thread;
    thread ← store (set_data None) thread;
    mret (C_OK, thread).

Definition q_thread_deinit (thread : q_thread_ptr) : outcome q_thread_ptr :=
  if is_null thread then mret thread
  else
    thread ← store (set_id 0) thread;
    thread ← store (set_thread_id 0) thread;
    thread ← store (set_fun_run None) thread;
    store (set_data None) thread.




(** pthread_create: 0, the new thread among the OS threads and its handle
    written through the first argument; or EAGAIN, no thread and nothing
    written. *)
Definition pthread_create (thread : q_thread_ptr) (os : os_state)
  : outcome (Z * q_thread_ptr * os_state) :=
  if (length (threads os) <? max_threads os)%nat then
    let new_tid := Z.of_nat (length (threads os)) + 1 in
    thread ← store (set_thread_id new_tid) thread;
    t ← load (fun t => t) thread;
    mret (0, thread, add_thread (mk_os_thread new_tid t) os)
  else mret (EAGAIN, thread, os).

Definition q_thread_start (thread : q_thread_ptr) (cpu : Z)
    (os : os_state)
  : outcome (status * q_thread_ptr * os_state) :=
  thread ← store (set_cpu_id cpu) thread;       (* thread->cpu_id = cpu_id; *)
  (* pthread_attr_init(&attr); *)
  if is_null thread then mret (C_ERR, thread, os)
  else
    f ← load fun_run thread;
    match f with
    | None => mret (C_ERR, thread, os)
    | Some _ =>
        (* the value pthread_create returns is not looked at *)
        '(_, thread, os) ← pthread_create thread os;
        mret (C_OK, thread, os)
    end.

End QThread.

(** ** t_string.c *)
Module TString.

(** *** Objects (server.h, object.c) *)

Inductive obj_type := OBJ_STRING | OBJ_LIST | OBJ_SET | OBJ_ZSET | OBJ_HASH.

Inductive obj_encoding :=
| OBJ_ENCODING_RAW
| OBJ_ENCODING_INT
| OBJ_ENCODING_HT
| OBJ_ENCODING_ZIPLIST
| OBJ_ENCODING_INTSET
| OBJ_ENCODING_SKIPLIST
| OBJ_ENCODING_QUICKLIST.

(** What [o->ptr] holds: an sds buffer, a [long] stored in the pointer
    itself, or an aggregate the string commands never look into. *)
Inductive ptr_val :=
| PSds (s : sds)
| PLong (n : Z)
| PAggregate.

Record robj := mk_robj {
  type : obj_type;
  encoding : obj_encoding;
  refcount : Z;
  ptr : ptr_val
}.

Global Instance obj_type_eq_dec : EqDecision obj_type.
Proof. solve_decision. Defined.
Global Instance obj_encoding_eq_dec : EqDecision obj_encoding.
Proof. solve_decision. Defined.
Global Instance ptr_val_eq_dec : EqDecision ptr_val.
Proof. solve_decision. Defined.
Global Instance robj_eq_dec : EqDecision robj.
Proof. solve_decision. Defined.

(** [(sds) o->ptr] and [(long) o->ptr]. *)
Definition ptr_sds (o : robj) : sds :=
  match ptr o with PSds s => s | _ => [] end.
Definition ptr_long (o : robj) : Z :=
  match ptr o with PLong n => n | _ => 0 end.

Definition set_ptr (p : ptr_val) (o : robj) : robj :=
  mk_robj (type o) (encoding o) (refcount o) p.

(** Modelled from the spec: sds.c is not part of the sources.  The buffer
    operations the commands call, on the list of bytes of a buffer:
    length, a zero-filled buffer, a copy, zero-extension to a length and
    concatenation. *)
Definition sdslen (s : sds) : Z := Z.of_nat (length s).
Definition sdsnewlen_zero (n : Z) : sds := replicate (Z.to_nat n) x00.
Definition sdsdup (s : sds) : sds := s.
Definition sdsgrowzero (s : sds) (n : Z) : sds :=
  if n <=? sdslen s then s else s ++ replicate (Z.to_nat (n - sdslen s)) x00.
Definition sdscatlen (s t : sds) : sds := s ++ t.

(** [memcpy(dst + offset, src, sdslen(src))] inside a buffer that is long
    enough. *)
Definition memcpy_at (dst : sds) (offset : Z) (src : sds) : sds :=
  take (Z.to_nat offset) dst ++ src
    ++ drop (Z.to_nat offset + length src)%nat dst.

(** Modelled from the spec: util.c is not part of the sources.  The decimal
    rendering of a [long long] and the parsing of a decimal [long long],
    which fails on anything that is not a decimal number of the signed
    64-bit range. *)
Definition ll2string (n : Z) : sds :=
  String.list_byte_of_string (NilZero.string_of_int (Z.to_int n)).

Definition string2ll (s : sds) : option Z :=
  match NilZero.int_of_string (String.string_of_list_byte s) with
  | Some d =>
      let z := Z.of_int d in
      if (LLONG_MIN <=? z) && (z <=? LLONG_MAX) then Some z else None
  | None => None
  end.

(** Modelled from the spec: object.c is not part of the sources.  Object
    construction with a reference count of one, the raw-bytes and the
    compact-integer encodings of a string, and the pool of shared
    integers below [shared_integers], which hands out one more reference
    to an object it keeps. *)
Definition createObject (t : obj_type) (p : ptr_val) : robj :=
  mk_robj t OBJ_ENCODING_RAW 1 p.

Definition createStringObject (s : sds) : robj :=
  createObject OBJ_STRING (PSds s).

Definition incrRefCount (o : robj) : robj :=
  mk_robj (type o) (encoding o) (refcount o + 1) (ptr o).

Definition sdsEncodedObject (o : robj) : bool :=
  bool_decide (encoding o = OBJ_ENCODING_RAW).

Definition dupStringObject (o : robj) : robj :=
  match encoding o with
  | OBJ_ENCODING_INT => mk_robj OBJ_STRING OBJ_ENCODING_INT 1 (ptr o)
  | _ => createStringObject (ptr_sds o)
  end.

Definition createStringObjectFromLongLong (shared_integers : Z) (value : Z)
  : robj :=
  if (0 <=? value) && (value <? shared_integers) then
    incrRefCount (mk_robj OBJ_STRING OBJ_ENCODING_INT 1 (PLong value))
  else if (LONG_MIN <=? value) && (value <=? LONG_MAX) then
    mk_robj OBJ_STRING OBJ_ENCODING_INT 1 (PLong value)
  else createStringObject (ll2string value).

(** The bytes a string object stands for, whatever its encoding
    (getDecodedObject). *)
Definition string_bytes (o : robj) : sds :=
  if sdsEncodedObject o then ptr_sds o else ll2string (ptr_long o).

Definition stringObjectLen (o : robj) : Z := sdslen (string_bytes o).

(** A null object reads as 0; an encoding that is neither raw nor integer,
    on which the source panics, is reported as a failure. *)
Definition getLongLongFromObject (o : option robj) : option Z :=
  match o with
  | None => Some 0
  | Some o =>
      if sdsEncodedObject o then string2ll (ptr_sds o)
      else if decide (encoding o = OBJ_ENCODING_INT) then Some (ptr_long o)
      else None
  end.

(** *** Replies, notifications, databases and the state *)

(** The reply sink of the specification: status, error, integer, bulk
    string, null marker and the header of a multi-bulk reply. *)
Inductive reply :=
| StatusReply (s : string)
| ErrorReply (msg : string)
| IntegerReply (n : Z)
| BulkReply (s : sds)
| NullBulk
| MultiBulkLen (n : Z).

Inductive notify_class := NOTIFY_STRING | NOTIFY_GENERIC.

Record keyspace_event := mk_event {
  ev_class : notify_class;
  ev_name : string;
  ev_key : sds;
  ev_dbid : Z
}.

(** What the writer does to a value buffer readers may hold. *)
Inductive rcu_op :=
| rcu_assign_pointer (key : sds) (p : ptr_val)
| synchronize_rcu
| sdsfree (old : ptr_val).

(** A misuse of a value buffer.  Addresses are those of the run of one
    command: 0 is the buffer [o->ptr] pointed to when the command took hold
    of the object, the others are the buffers the command obtains, in
    order. *)
Inductive mem_fault :=
| double_free (a : nat)                  (* released a second time *)
| use_after_free (a : nat)               (* read, written or extended after its release *)
| published_written (a : nat)            (* written while o->ptr points to it *)
| published_freed (a : nat)              (* released while o->ptr points to it *)
| freed_before_grace_period (a : nat).   (* released between its replacement in
                                            o->ptr and synchronize_rcu *)

Record redisDb := mk_db {
  dict : gmap sds robj;
  expires : gmap sds Z;
  id : Z
}.

Record state := mk_state {
  db : redisDb;                    (* c->db *)
  dirty : Z;                       (* server.dirty *)
  mstime : Z;                      (* what mstime() reads *)
  replies : list reply;            (* the client's reply sink *)
  events : list keyspace_event;    (* notifyKeyspaceEvent *)
  touched : list sds;              (* signalModifiedKey *)
  rcu : list rcu_op;               (* the writer's RCU calls *)
  realloc_in_place : bool;         (* whether the allocator extends a buffer
                                      where it lies *)
  faults : list mem_fault          (* the misuses of buffers so far *)
}.

Record client := mk_client {
  argv : list robj;
  cmd_name : string                (* c->cmd->name *)
}.

Definition argc (c : client) : Z := Z.of_nat (length (argv c)).

(** [c->argv[j]]; the dispatcher has checked the arity of the command. *)
Definition arg (c : client) (j : nat) : robj :=
  default (createStringObject []) (argv c !! j).

Definition set_db (d : redisDb) (st : state) : state :=
  mk_state d (dirty st) (mstime st) (replies st) (events st) (touched st)
    (rcu st) (realloc_in_place st) (faults st).
Definition set_dict (m : gmap sds robj) (st : state) : state :=
  set_db (mk_db m (expires (db st)) (id (db st))) st.
Definition set_expires (m : gmap sds Z) (st : state) : state :=
  set_db (mk_db (dict (db st)) m (id (db st))) st.
Definition incr_dirty (n : Z) (st : state) : state :=
  mk_state (db st) (dirty st + n) (mstime st) (replies st) (events st)
    (touched st) (rcu st) (realloc_in_place st) (faults st).
Definition addReply (r : reply) (st : state) : state :=
  mk_state (db st) (dirty st) (mstime st) (replies st ++ [r]) (events st)
    (touched st) (rcu st) (realloc_in_place st) (faults st).
Definition notifyKeyspaceEvent (cl : notify_class) (name : string)
    (key : robj) (st : state) : state :=
  mk_state (db st) (dirty st) (mstime st) (replies st)
    (events st ++ [mk_event cl name (ptr_sds key) (id (db st))])
    (touched st) (rcu st) (realloc_in_place st) (faults st).
Definition signalModifiedKey (key : robj) (st : state) : state :=
  mk_state (db st) (dirty st) (mstime st) (replies st) (events st)
    (touched st ++ [ptr_sds key]) (rcu st) (realloc_in_place st) (faults st).
Definition rcu_log (ops : list rcu_op) (st : state) : state :=
  mk_state (db st) (dirty st) (mstime st) (replies st) (events st)
    (touched st) (rcu st ++ ops) (realloc_in_place st) (faults st).
Definition fault_log (fs : list mem_fault) (st : state) : state :=
  mk_state (db st) (dirty st) (mstime st) (replies st) (events st)
    (touched st) (rcu st) (realloc_in_place st) (faults st ++ fs).

(** Modelled from the spec: the shared reply objects of server.c and the
    reply functions of networking.c are not part of the sources. *)
Definition shared_ok := StatusReply "OK".
Definition shared_czero := IntegerReply 0.
Definition shared_cone := IntegerReply 1.
Definition shared_nullbulk := NullBulk.
Definition shared_emptybulk := BulkReply [].
Definition shared_wrongtypeerr :=
  ErrorReply "WRONGTYPE Operation against a key holding the wrong kind of value".
Definition shared_syntaxerr := ErrorReply "syntax error".

Definition addReplyError (msg : string) : state -> state :=
  addReply (ErrorReply msg).
Definition addReplyLongLong (n : Z) : state -> state :=
  addReply (IntegerReply n).
Definition addReplyBulk (o : robj) : state -> state :=
  addReply (BulkReply (string_bytes o)).
Definition addReplyBulkCBuffer (s : sds) : state -> state :=
  addReply (BulkReply s).
Definition addReplyMultiBulkLen (n : Z) : state -> state :=
  addReply (MultiBulkLen n).

(** [addReply(c, shared.colon); addReply(c, o); addReply(c, shared.crlf)]:
    the integer reply whose digits are the bytes of [o]. *)
Definition addReplyColonObject (o : robj) : state -> state :=
  addReply (IntegerReply (default 0 (string2ll (string_bytes o)))).

(** Modelled from the spec: db.c is not part of the sources.  The Keyspace
    is a mapping from keys to objects with an auxiliary mapping from keys
    to expiration times; lookups read the main mapping, [setKey] installs
    a value whether or not the key exists and clears its expiration. *)
Definition lookupKey (st : state) (key : robj) : option robj :=
  dict (db st) !! ptr_sds key.
Definition lookupKeyRead := lookupKey.
Definition lookupKeyWrite := lookupKey.

Definition lookupKeyReadOrReply (st : state) (key : robj) (r : reply)
  : state * option robj :=
  match lookupKeyRead st key with
  | None => (addReply r st, None)
  | Some o => (st, Some o)
  end.

Definition dbAdd (key val : robj) (st : state) : state :=
  set_dict (<[ptr_sds key := val]> (dict (db st))) st.
Definition dbOverwrite (key val : robj) (st : state) : state :=
  set_dict (<[ptr_sds key := val]> (dict (db st))) st.
Definition removeExpire (key : robj) (st : state) : state :=
  set_expires (delete (ptr_sds key) (expires (db st))) st.
Definition setExpire (key : robj) (when : Z) (st : state) : state :=
  set_expires (<[ptr_sds key := when]> (expires (db st))) st.

Definition setKey (key val : robj) (st : state) : state :=
  let st :=
    match lookupKeyWrite st key with
    | None => dbAdd key val st
    | Some _ => dbOverwrite key val st
    end in
  let st := removeExpire key st in
  signalModifiedKey key st.

(** The unshare step: an object that is not uniquely owned or not raw is
    replaced in the keyspace by a private raw copy. *)
Definition dbUnshareStringValue (key o : robj) (st : state) : state * robj :=
  if bool_decide (refcount o ≠ 1)
     || bool_decide (encoding o ≠ OBJ_ENCODING_RAW) then
    let o' := createStringObject (string_bytes o) in
    (dbOverwrite key o' st, o')
  else (st, o).

(** [checkType]: replies the wrong-type error and returns true when the
    object is not of the expected type. *)
Definition checkType (st : state) (o : robj) (t : obj_type) : state * bool :=
  if decide (type o = t) then (st, false)
  else (addReply shared_wrongtypeerr st, true).

Definition getLongLongFromObjectOrReply (st : state) (o : option robj)
  : state * option Z :=
  match getLongLongFromObject o with
  | Some v => (st, Some v)
  | None => (addReplyError "value is not an integer or out of range" st, None)
  end.

Definition getLongFromObjectOrReply (st : state) (o : option robj)
  : state * option Z :=
  match getLongLongFromObjectOrReply st o with
  | (st, Some v) =>
      if (v <? LONG_MIN) || (LONG_MAX <? v) then
        (addReplyError "value is out of range" st, None)
      else (st, Some v)
  | r => r
  end.


(** *** The buffers of one object, by address *)

(** Modelled from the spec: sds.c and the RCU library are not part of the
    sources.  The specification gives the writer's protocol: a value is
    edited in a duplicate of its buffer, the duplicate is published, and the
    old buffer may be freed once a grace period has elapsed after the
    publish; readers never see a buffer change under them.  Of sds.c the
    commands use the convention that a call which extends a buffer takes the
    buffer over and returns the one to use from then on
    ([nc = sdsgrowzero(nc, ...)], and [o->ptr = sdscatlen(o->ptr, ...)] in
    the line appendCommand keeps as a comment): the same buffer when the
    allocator extends it where it lies, a new one, the old one released,
    when it does not.

    The buffers a command handles for one object: for every address the
    bytes it holds and whether it is allocated (a released buffer keeps its
    bytes until the allocator reuses it), the address [o->ptr] holds, the
    buffers [o->ptr] has held since the last grace period, the RCU calls
    made and the misuses found. *)
Record buffers := mk_buffers {
  cells : list (sds * bool);
  o_ptr : nat;
  unpublished : list nat;
  calls : list rcu_op;
  misuses : list mem_fault
}.

(** The buffers of an object whose value buffer holds [s]. *)
Definition buffers_of (s : sds) : buffers := mk_buffers [(s, true)] 0 [] [] [].

Definition bytes_at (a : nat) (m : buffers) : sds :=
  default [] (fst <$> cells m !! a).
Definition allocated (a : nat) (m : buffers) : bool :=
  default false (snd <$> cells m !! a).

Definition set_cells (cs : list (sds * bool)) (m : buffers) : buffers :=
  mk_buffers cs (o_ptr m) (unpublished m) (calls m) (misuses m).
Definition misuse (f : mem_fault) (m : buffers) : buffers :=
  mk_buffers (cells m) (o_ptr m) (unpublished m) (calls m) (misuses m ++ [f]).
Definition call (op : rcu_op) (m : buffers) : buffers :=
  mk_buffers (cells m) (o_ptr m) (unpublished m) (calls m ++ [op]) (misuses m).

(** A use of the buffer at [a], which has to be allocated. *)
Definition access (a : nat) (m : buffers) : buffers :=
  if allocated a m then m else misuse (use_after_free a) m.

(** The bytes [s] stored in the buffer at [a], which readers must not be
    able to reach. *)
Definition write (a : nat) (s : sds) (m : buffers) : buffers :=
  let m := if bool_decide (a = o_ptr m) then misuse (published_written a) m
           else m in
  set_cells (<[a := (s, allocated a m)]> (cells m)) m.

Definition allocate (s : sds) (m : buffers) : nat * buffers :=
  (length (cells m), set_cells (cells m ++ [(s, true)]) m).

(** The allocator takes the buffer at [a] back, which readers must not be
    able to reach any more. *)
Definition release (a : nat) (m : buffers) : buffers :=
  let m := if bool_decide (a = o_ptr m) then misuse (published_freed a) m
           else m in
  let m := if bool_decide (a ∈ unpublished m)
           then misuse (freed_before_grace_period a) m else m in
  set_cells (<[a := (bytes_at a m, false)]> (cells m)) m.

(** The buffer at [a] extended to hold [s]: where it lies, or in a new
    buffer, the old one released. *)
Definition extend (in_place : bool) (a : nat) (s : sds) (m : buffers)
  : nat * buffers :=
  let m := access a m in
  if in_place then (a, write a s m)
  else
    let '(b, m) := allocate s m in
    (b, release a m).

Definition sdsdup_at (a : nat) (m : buffers) : nat * buffers :=
  allocate (sdsdup (bytes_at a m)) (access a m).

(** sdsgrowzero returns the buffer it is given when that is long enough. *)
Definition sdsgrowzero_at (in_place : bool) (a : nat) (n : Z) (m : buffers)
  : nat * buffers :=
  if n <=? sdslen (bytes_at a m) then (a, access a m)
  else extend in_place a (sdsgrowzero (bytes_at a m) n) m.

Definition sdscatlen_at (in_place : bool) (a : nat) (t : sds) (m : buffers)
  : nat * buffers :=
  extend in_place a (sdscatlen (bytes_at a m) t) m.

Definition memcpy_to (a : nat) (offset : Z) (src : sds) (m : buffers)
  : buffers :=
  let m := access a m in
  write a (memcpy_at (bytes_at a m) offset src) m.

Definition sdslen_at (a : nat) (m : buffers) : Z * buffers :=
  (sdslen (bytes_at a m), access a m).

(** [rcu_assign_pointer(o->ptr, a)]: readers that come from now on find the
    buffer at [a]; those already reading may hold the one it replaces. *)
Definition rcu_assign_pointer_at (key : robj) (a : nat) (m : buffers)
  : buffers :=
  let m := call (rcu_assign_pointer (ptr_sds key) (PSds (bytes_at a m))) m in
  mk_buffers (cells m) a
    (if bool_decide (a = o_ptr m) then unpublished m
     else o_ptr m :: unpublished m)
    (calls m) (misuses m).

(** [synchronize_rcu()]: no reader holds a replaced buffer any more. *)
Definition synchronize_rcu_at (m : buffers) : buffers :=
  let m := call synchronize_rcu m in
  mk_buffers (cells m) (o_ptr m) [] (calls m) (misuses m).

Definition sdsfree_at (a : nat) (m : buffers) : buffers :=
  let m := call (sdsfree (PSds (bytes_at a m))) m in
  if allocated a m then release a m else misuse (double_free a) m.

(** The object [o] under [key] once the command has handled its buffers:
    [o->ptr] holds what the command left there, and the calls and misuses of
    the command are added to those of the state. *)
Definition write_back (key o : robj) (m : buffers) (st : state) : state :=
  let o := set_ptr (PSds (bytes_at (o_ptr m) m)) o in
  let st := set_dict (<[ptr_sds key := o]> (dict (db st))) st in
  fault_log (misuses m) (rcu_log (calls m) st).

(** *** The commands of t_string.c *)

Definition checkStringLength (st : state) (size : Z) : state * status :=
  if size >? 512 * 1024 * 1024 then
    (addReplyError "string exceeds maximum allowed size (512MB)" st, C_ERR)
  else (st, C_OK).

Definition OBJ_SET_NO_FLAGS : Z := 0.
Definition OBJ_SET_NX : Z := Z.shiftl 1 0.
Definition OBJ_SET_XX : Z := Z.shiftl 1 1.
Definition OBJ_SET_EX : Z := Z.shiftl 1 2.
Definition OBJ_SET_PX : Z := Z.shiftl 1 3.

Inductive time_unit := UNIT_SECONDS | UNIT_MILLISECONDS.

(** [flags & f] as a C truth value. *)
Definition has_flag (flags f : Z) : bool := negb (Z.land flags f =? 0).

Definition is_null (o : option robj) : bool :=
  match o with None => true | Some _ => false end.

(** The first part of setGenericCommand: the expire argument, when given, is
    parsed and validated.  [None] stands for the early [return]. *)
Definition set_expire_arg (c : client) (expire : option robj)
    (unit : time_unit) (st : state) : state * option Z :=
  match expire with
  | Some e =>
      match getLongLongFromObjectOrReply st (Some e) with
      | (st, None) => (st, None)
      | (st, Some milliseconds) =>
          if milliseconds <=? 0 then
            (addReplyError ("invalid expire time in " +:+ cmd_name c) st, None)
          else
            (st, Some (match unit with
                       | UNIT_SECONDS => to_ll (milliseconds * 1000)
                       | UNIT_MILLISECONDS => milliseconds
                       end))
      end
  | None => (st, Some 0)
  end.

Definition setGenericCommand (c : client) (flags : Z) (key val : robj)
    (expire : option robj) (unit : time_unit)
    (ok_reply abort_reply : option reply) (st : state) : state :=
  match set_expire_arg c expire unit st with
  | (st, None) => st
  | (st, Some milliseconds) =>
      if (has_flag flags OBJ_SET_NX && negb (is_null (lookupKeyWrite st key)))
         || (has_flag flags OBJ_SET_XX && is_null (lookupKeyWrite st key))
      then addReply (default shared_nullbulk abort_reply) st
      else
        let st := setKey key val st in
        let st := incr_dirty 1 st in
        let st := if is_null expire then st
                  else setExpire key (to_ll (mstime st + milliseconds)) st in
        let st := notifyKeyspaceEvent NOTIFY_STRING "set" key st in
        let st := if is_null expire then st
                  else notifyKeyspaceEvent NOTIFY_GENERIC "expire" key st in
        addReply (default shared_ok ok_reply) st
  end.

(** [a[i]] for an sds buffer: the bytes, then the terminating NUL. *)
Definition char_at (a : sds) (i : nat) : byte := nth i a x00.

Definition is_letter (b lower upper : byte) : bool :=
  bool_decide (b = lower) || bool_decide (b = upper).

(** [a] spells the two-letter option [l0 l1] in either case. *)
Definition is_option (a : sds) (l0 u0 l1 u1 : byte) : bool :=
  is_letter (char_at a 0) l0 u0 && is_letter (char_at a 1) l1 u1
  && bool_decide (char_at a 2 = x00).

(** The option loop of setCommand over [argv[3..]]; [None] is the syntax
    error. *)
Fixpoint set_options (args : list robj) (flags : Z) (unit : time_unit)
    (expire : option robj) : option (Z * time_unit * option robj) :=
  match args with
  | [] => Some (flags, unit, expire)
  | a_obj :: rest =>
      let a := ptr_sds a_obj in
      if is_option a "n" "N" "x" "X" && negb (has_flag flags OBJ_SET_XX) then
        set_options rest (Z.lor flags OBJ_SET_NX) unit expire
      else if is_option a "x" "X" "x" "X"
              && negb (has_flag flags OBJ_SET_NX) then
        set_options rest (Z.lor flags OBJ_SET_XX) unit expire
      else
        match rest with
        | next :: rest' =>
            if is_option a "e" "E" "x" "X"
               && negb (has_flag flags OBJ_SET_PX) then
              set_options rest' (Z.lor flags OBJ_SET_EX) UNIT_SECONDS
                (Some next)
            else if is_option a "p" "P" "x" "X"
                    && negb (has_flag flags OBJ_SET_EX) then
              set_options rest' (Z.lor flags OBJ_SET_PX) UNIT_MILLISECONDS
                (Some next)
            else None
        | [] => None
        end
  end.

Definition setCommand (c : client) (st : state) : state :=
  match set_options (drop 3 (argv c)) OBJ_SET_NO_FLAGS UNIT_SECONDS None with
  | None => addReply shared_syntaxerr st
  | Some (flags, unit, expire) =>
      let val := dupStringObject (arg c 2) in
      let key := dupStringObject (arg c 1) in
      setGenericCommand c flags key val expire unit None None st
  end.

(** The source passes 0 for the unit, which no call without an expire
    reads. *)
Definition setnxCommand (c : client) (st : state) : state :=
  let key := dupStringObject (arg c 1) in
  let val := dupStringObject (arg c 2) in
  setGenericCommand c OBJ_SET_NX key val None UNIT_SECONDS
    (Some shared_cone) (Some shared_czero) st.

(** SETEX and PSETEX hand [argv[1]] and [argv[3]] themselves to
    setGenericCommand; the duplicates the source makes of them are released
    unused. *)
Definition setexCommand (c : client) (st : state) : state :=
  setGenericCommand c OBJ_SET_NO_FLAGS (arg c 1) (arg c 3) (Some (arg c 2))
    UNIT_SECONDS None None st.

Definition psetexCommand (c : client) (st : state) : state :=
  setGenericCommand c OBJ_SET_NO_FLAGS (arg c 1) (arg c 3) (Some (arg c 2))
    UNIT_MILLISECONDS None None st.

Definition getGenericCommand (c : client) (st : state) : state * status :=
  match lookupKeyReadOrReply st (arg c 1) shared_nullbulk with
  | (st, None) => (st, C_OK)
  | (st, Some o) =>
      if bool_decide (type o ≠ OBJ_STRING) then
        (addReply shared_wrongtypeerr st, C_ERR)
      else (addReplyBulk o st, C_OK)
  end.

Definition getCommand (c : client) (st : state) : state :=
  fst (getGenericCommand c st).

Definition getsetCommand (c : client) (st : state) : state :=
  match getGenericCommand c st with
  | (st, C_ERR) => st
  | (st, C_OK) =>
      let key := dupStringObject (arg c 1) in
      let val := dupStringObject (arg c 2) in
      let st := setKey key val st in
      let st := notifyKeyspaceEvent NOTIFY_STRING "set" key st in
      incr_dirty 1 st
  end.

(** The object a range write edits, or [None] when setrangeCommand has
    already replied and returned. *)
Definition setrange_target (c : client) (offset : Z) (value : sds)
    (st : state) : state * option robj :=
  match lookupKeyWrite st (arg c 1) with
  | None =>
      if sdslen value =? 0 then (addReply shared_czero st, None)
      else
        match checkStringLength st (to_ll (to_size_t (offset + sdslen value))) with
        | (st, C_ERR) => (st, None)
        | (st, C_OK) =>
            let o := createObject OBJ_STRING
                       (PSds (sdsnewlen_zero (to_size_t (offset + sdslen value)))) in
            (dbAdd (arg c 1) o st, Some o)
        end
  | Some o =>
      match checkType st o OBJ_STRING with
      | (st, true) => (st, None)
      | (st, false) =>
          let olen := stringObjectLen o in
          if sdslen value =? 0 then (addReplyLongLong olen st, None)
          else
            match checkStringLength st (to_ll (to_size_t (offset + sdslen value))) with
            | (st, C_ERR) => (st, None)
            | (st, C_OK) =>
                let '(st, o) := dbUnshareStringValue (arg c 1) o st in
                (st, Some o)
            end
      end
  end.

(** [rcu_assign_pointer(o->ptr, p)] on the object [o] stored under [key]:
    the keyspace entry is that object, so the new pointer shows there. *)
Definition publish (key : robj) (o : robj) (p : ptr_val) (st : state)
  : state * robj :=
  let o := set_ptr p o in
  (rcu_log [rcu_assign_pointer (ptr_sds key) p]
     (set_dict (<[ptr_sds key := o]> (dict (db st))) st), o).

Definition setrangeCommand (c : client) (st : state) : state :=
  let value := ptr_sds (arg c 3) in
  match getLongFromObjectOrReply st (Some (arg c 2)) with
  | (st, None) => st
  | (st, Some offset) =>
      if offset <? 0 then addReplyError "offset is out of range" st
      else
        match setrange_target c offset value st with
        | (st, None) => st
        | (st, Some o) =>
            let '(st, o) :=
              if sdslen value >? 0 then
                let oc := ptr o in
                let nc := sdsdup (ptr_sds o) in
                let nc := sdsgrowzero nc (to_size_t (offset + sdslen value)) in
                let nc := memcpy_at nc offset value in
                let '(st, o) := publish (arg c 1) o (PSds nc) st in
                let st := rcu_log [synchronize_rcu; sdsfree oc] st in
                let st := signalModifiedKey (arg c 1) st in
                let st := notifyKeyspaceEvent NOTIFY_STRING "setrange"
                            (arg c 1) st in
                (incr_dirty 1 st, o)
              else (st, o) in
            addReplyLongLong (sdslen (ptr_sds o)) st
        end
  end.

(** The statements of setrangeCommand under [if (sdslen(value) > 0)] up to
    sdsfree, and the read of [sdslen(o->ptr)] for the reply, on the buffers
    of the object: the length read and the buffers they leave. *)
Definition setrange_buffers (in_place : bool) (key : robj) (offset : Z)
    (value : sds) (m : buffers) : Z * buffers :=
  let oc := o_ptr m in
  let '(nc, m) := sdsdup_at (o_ptr m) m in
  let '(nc, m) :=
    sdsgrowzero_at in_place nc (to_size_t (offset + sdslen value)) m in
  let m := memcpy_to nc offset value m in
  let m := rcu_assign_pointer_at key nc m in
  let m := synchronize_rcu_at m in
  let m := sdsfree_at oc m in
  sdslen_at (o_ptr m) m.

(** The index arithmetic of getrangeCommand on a string of [strlen] bytes:
    [None] for the empty reply, else the first index and the byte count
    handed to addReplyBulkCBuffer. *)
Definition getrange_bounds (strlen start end_ : Z) : option (Z * Z) :=
  if (start <? 0) && (end_ <? 0) && (start >? end_) then None
  else
    let start := if start <? 0 then to_ll (to_size_t (strlen + start))
                 else start in
    let end_ := if end_ <? 0 then to_ll (to_size_t (strlen + end_))
                else end_ in
    let start := if start <? 0 then 0 else start in
    let end_ := if end_ <? 0 then 0 else end_ in
    let end_ := if to_size_t end_ >=? strlen then to_ll (to_size_t (strlen - 1))
                else end_ in
    if (start >? end_) || (strlen =? 0) then None
    else Some (start, to_size_t (end_ - start + 1)).

Definition getrangeCommand (c : client) (st : state) : state :=
  match getLongLongFromObjectOrReply st (Some (arg c 2)) with
  | (st, None) => st
  | (st, Some start) =>
  match getLongLongFromObjectOrReply st (Some (arg c 3)) with
  | (st, None) => st
  | (st, Some end_) =>
  match lookupKeyReadOrReply st (arg c 1) shared_emptybulk with
  | (st, None) => st
  | (st, Some o) =>
  match checkType st o OBJ_STRING with
  | (st, true) => st
  | (st, false) =>
      let str := if decide (encoding o = OBJ_ENCODING_INT)
                 then ll2string (ptr_long o) else ptr_sds o in
      let strlen := sdslen str in
      match getrange_bounds strlen start end_ with
      | None => addReply shared_emptybulk st
      | Some (start, len) =>
          addReplyBulkCBuffer
            (take (Z.to_nat len) (drop (Z.to_nat start) str)) st
      end
  end end end end.

Definition mget_element (st : state) (key : robj) : state :=
  match lookupKeyRead st key with
  | None => addReply shared_nullbulk st
  | Some o =>
      if bool_decide (type o ≠ OBJ_STRING) then addReply shared_nullbulk st
      else addReplyBulk o st
  end.

Definition mgetCommand (c : client) (st : state) : state :=
  let st := addReplyMultiBulkLen (argc c - 1) st in
  foldl mget_element st (drop 1 (argv c)).

(** The two loops of msetGenericCommand, [for (j = 1; j < argc; j += 2)],
    over [argv[1..]] taken two at a time. *)
Fixpoint mset_busykeys (st : state) (args : list robj) (busykeys : Z) : Z :=
  match args with
  | k :: _ :: rest =>
      let key := dupStringObject k in
      mset_busykeys st rest
        (if is_null (lookupKeyWrite st key) then busykeys else busykeys + 1)
  | _ => busykeys
  end.

Fixpoint mset_write (args : list robj) (st : state) : state :=
  match args with
  | k :: v :: rest =>
      let key := dupStringObject k in
      let val := dupStringObject v in
      let st := setKey key val st in
      let st := notifyKeyspaceEvent NOTIFY_STRING "set" key st in
      mset_write rest st
  | _ => st
  end.

Definition msetGenericCommand (c : client) (nx : bool) (st : state) : state :=
  if Z.rem (argc c) 2 =? 0 then
    addReplyError "wrong number of arguments for MSET" st
  else if nx && negb (mset_busykeys st (drop 1 (argv c)) 0 =? 0) then
    addReply shared_czero st
  else
    let st := mset_write (drop 1 (argv c)) st in
    let st := incr_dirty (Z.quot (argc c - 1) 2) st in
    addReply (if nx then shared_cone else shared_ok) st.

Definition msetCommand (c : client) : state -> state :=
  msetGenericCommand c false.
Definition msetnxCommand (c : client) : state -> state :=
  msetGenericCommand c true.

Section Incr.

(** OBJ_SHARED_INTEGERS of server.h, which is not part of the sources. *)
Variable OBJ_SHARED_INTEGERS : Z.

(** The overflow test of incrDecrCommand, with C's short-circuit order. *)
Definition incr_overflows (oldvalue incr : Z) : bool :=
  ((incr <? 0) && (oldvalue <? 0) && (incr <? to_ll (LLONG_MIN - oldvalue)))
  || ((incr >? 0) && (oldvalue >? 0) && (incr >? to_ll (LLONG_MAX - oldvalue))).

Definition incrDecrCommand (c : client) (incr : Z) (st : state) : state :=
  let o := lookupKeyWrite st (arg c 1) in
  let '(st, wrong) :=
    match o with
    | Some o' => checkType st o' OBJ_STRING
    | None => (st, false)
    end in
  if wrong then st
  else
    match getLongLongFromObjectOrReply st o with
    | (st, None) => st
    | (st, Some value) =>
        let oldvalue := value in
        if incr_overflows oldvalue incr then
          addReplyError "increment or decrement would overflow" st
        else
          let value := to_ll (value + incr) in
          let '(st, new) :=
            match o with
            | Some o' =>
                if (refcount o' =? 1)
                   && bool_decide (encoding o' = OBJ_ENCODING_INT)
                   && ((value <? 0) || (value >=? OBJ_SHARED_INTEGERS))
                   && (value >=? LONG_MIN) && (value <=? LONG_MAX)
                then publish (arg c 1) o' (PLong value) st
                else
                  let new := createStringObjectFromLongLong
                               OBJ_SHARED_INTEGERS value in
                  (dbOverwrite (arg c 1) new st, new)
            | None =>
                let new := createStringObjectFromLongLong
                             OBJ_SHARED_INTEGERS value in
                (dbAdd (arg c 1) new st, new)
            end in
          let st := signalModifiedKey (arg c 1) st in
          let st := notifyKeyspaceEvent NOTIFY_STRING "incrby" (arg c 1) st in
          let st := incr_dirty 1 st in
          addReplyColonObject new st
    end.

Definition incrCommand (c : client) : state -> state := incrDecrCommand c 1.
Definition decrCommand (c : client) : state -> state := incrDecrCommand c (-1).

Definition incrbyCommand (c : client) (st : state) : state :=
  match getLongLongFromObjectOrReply st (Some (arg c 2)) with
  | (st, None) => st
  | (st, Some incr) => incrDecrCommand c incr st
  end.

(** [-incr] is written with the wrap-around of the hardware: C leaves the
    negation of LLONG_MIN undefined. *)
Definition decrbyCommand (c : client) (st : state) : state :=
  match getLongLongFromObjectOrReply st (Some (arg c 2)) with
  | (st, None) => st
  | (st, Some incr) => incrDecrCommand c (to_ll (- incr)) st
  end.

End Incr.

(** The statements of appendCommand between dbUnshareStringValue and the
    common tail, on the buffers of the object: [totlen] and the buffers they
    leave. *)
Definition append_buffers (in_place : bool) (key : robj) (append : sds)
    (m : buffers) : Z * buffers :=
  let '(nc, m) := sdscatlen_at in_place (o_ptr m) append m in
  let oc := o_ptr m in
  let m := rcu_assign_pointer_at key nc m in
  let m := synchronize_rcu_at m in
  let m := sdsfree_at oc m in
  sdslen_at (o_ptr m) m.

Definition appendCommand (c : client) (st : state) : state :=
  let key := dupStringObject (arg c 1) in
  let val := dupStringObject (arg c 2) in
  let finish (totlen : Z) (st : state) : state :=
    let st := signalModifiedKey key st in
    let st := notifyKeyspaceEvent NOTIFY_STRING "append" key st in
    let st := incr_dirty 1 st in
    addReplyLongLong totlen st in
  match lookupKeyWrite st key with
  | None =>
      (* Create the key *)
      let st := dbAdd key val st in
      finish (stringObjectLen val) st
  | Some o =>
      match checkType st o OBJ_STRING with
      | (st, true) => st
      | (st, false) =>
          let append := val in
          let totlen :=
            to_size_t (stringObjectLen o + sdslen (ptr_sds append)) in
          match checkStringLength st (to_ll totlen) with
          | (st, C_ERR) => st
          | (st, C_OK) =>
              let '(st, o) := dbUnshareStringValue key o st in
              let '(totlen, m) :=
                append_buffers (realloc_in_place st) key (ptr_sds append)
                  (buffers_of (ptr_sds o)) in
              finish totlen (write_back key o m st)
          end
      end
  end.

Definition strlenCommand (c : client) (st : state) : state :=
  match lookupKeyReadOrReply st (arg c 1) shared_czero with
  | (st, None) => st
  | (st, Some o) =>
      match checkType st o OBJ_STRING with
      | (st, true) => st
      | (st, false) => addReplyLongLong (stringObjectLen o) st
      end
  end.

End TString.

(** ** Inputs used in the examples *)

Definition bytes (s : string) : sds := String.list_byte_of_string s.

(** An argument as the front end hands it over: a raw string object. *)
Definition str_arg (s : string) : TString.robj :=
  TString.createStringObject (bytes s).

(** The client of a command line, [name] followed by its arguments. *)
Definition command (name : string) (args : list string) : TString.client :=
  TString.mk_client (str_arg name :: map str_arg args) name.

Definition empty_state : TString.state :=
  TString.mk_state (TString.mk_db ∅ ∅ 0) 0 0 [] [] [] [] false [].

(** ** The specification's reading of GETRANGE *)

(** GETRANGE in the words of the specification: a negative index is
    normalized to [len + index], a start that is out of range is clamped up
    to 0, an end that is out of range is clamped down to [len - 1], and the
    bytes from start to end inclusive are replied; nothing is replied when
    the normalized start exceeds the normalized end or the string is
    empty. *)
Definition getrange_spec (s : sds) (start end_ : Z) : sds :=
  let len := TString.sdslen s in
  let norm i := if i <? 0 then len + i else i in
  let start := Z.max 0 (norm start) in
  let end_ := Z.min (len - 1) (norm end_) in
  if (start >? end_) || (len =? 0) then []
  else take (Z.to_nat (end_ - start + 1)) (drop (Z.to_nat start) s).

(** The same with the two additions the code makes: two negative indices
    with start above end give the empty string at once, and an end that is
    still negative after normalization is clamped up to 0. *)
Definition getrange_spec_amended (s : sds) (start end_ : Z) : sds :=
  let len := TString.sdslen s in
  if (start <? 0) && (end_ <? 0) && (start >? end_) then []
  else
    let norm i := if i <? 0 then len + i else i in
    let start := Z.max 0 (norm start) in
    let end_ := Z.min (len - 1) (Z.max 0 (norm end_)) in
    if (start >? end_) || (len =? 0) then []
    else take (Z.to_nat (end_ - start + 1)) (drop (Z.to_nat start) s).

(** ** Key/value argument lists *)

(** The argument vector of MSET/MSETNX for a list of key/value pairs. *)
Definition mset_client (name : string)
    (pairs : list (TString.robj * TString.robj)) : TString.client :=
  TString.mk_client
    (str_arg name :: concat (map (fun kv => [kv.1; kv.2]) pairs)) name.

(** The key a pair targets and the object its value is installed as. *)
Definition pair_key (kv : TString.robj * TString.robj) : sds :=
  TString.ptr_sds (TString.dupStringObject kv.1).
Definition pair_val (kv : TString.robj * TString.robj) : TString.robj :=
  TString.dupStringObject kv.2.

(** The value the last pair for key [k] carries, if any pair targets [k]. *)
Definition last_value (k : sds) (pairs : list (TString.robj * TString.robj))
  : option TString.robj :=
  foldl (fun acc kv => if decide (pair_key kv = k) then Some (pair_val kv)
                       else acc) None pairs.

(** ** The element MGET replies for one key *)

(** The null marker when the key is missing or holds a non-string, else the
    bytes of its value. *)
Definition mget_reply (d : gmap sds TString.robj) (key : TString.robj)
  : TString.reply :=
  match d !! TString.ptr_sds key with
  | Some o =>
      if decide (TString.type o = TString.OBJ_STRING)
      then TString.BulkReply (TString.string_bytes o)
      else TString.NullBulk
  | None => TString.NullBulk
  end.

(** ** Predicates on states and replies *)

(** Every key with an expiration time is a key of the main mapping. *)
Definition expires_in_dict (st : TString.state) : Prop :=
  forall k, is_Some (TString.expires (TString.db st) !! k) ->
            is_Some (TString.dict (TString.db st) !! k).



(** [st'] differs from [st] in the reply sink at most. *)
Definition only_replies (st st' : TString.state) : Prop :=
  TString.db st' = TString.db st
  /\ TString.dirty st' = TString.dirty st
  /\ TString.mstime st' = TString.mstime st
  /\ TString.events st' = TString.events st
  /\ TString.touched st' = TString.touched st
  /\ TString.rcu st' = TString.rcu st
  /\ TString.realloc_in_place st' = TString.realloc_in_place st
  /\ TString.faults st' = TString.faults st.

(** What setCommand's option loop may hand to setGenericCommand. *)
Definition set_flags_consistent (flags : Z) (unit : TString.time_unit)
    (expire : option TString.robj) : Prop :=
  0 <= flags < 16
  /\ (TString.has_flag flags TString.OBJ_SET_NX
      && TString.has_flag flags TString.OBJ_SET_XX = false)
  /\ (TString.has_flag flags TString.OBJ_SET_EX
      && TString.has_flag flags TString.OBJ_SET_PX = false)
  /\ (TString.is_null expire
      = negb (TString.has_flag flags TString.OBJ_SET_EX
              || TString.has_flag flags TString.OBJ_SET_PX))
  /\ (TString.has_flag flags TString.OBJ_SET_EX = true ->
      unit = TString.UNIT_SECONDS)
  /\ (TString.has_flag flags TString.OBJ_SET_PX = true ->
      unit = TString.UNIT_MILLISECONDS).

(** The state setGenericCommand leaves when it writes: the value installed,
    the mutation counted, the expiration set [ms] milliseconds from now when
    one is given, the notifications emitted and the reply added. *)
Definition set_written (key val : TString.robj) (expire : option Z)
    (ok_reply : option TString.reply) (st : TString.state) : TString.state :=
  let st := TString.incr_dirty 1 (TString.setKey key val st) in
  let st := match expire with
            | Some ms =>
                TString.setExpire key (to_ll (TString.mstime st + ms)) st
            | None => st
            end in
  let st := TString.notifyKeyspaceEvent TString.NOTIFY_STRING "set" key st in
  let st := match expire with
            | Some _ =>
                TString.notifyKeyspaceEvent TString.NOTIFY_GENERIC "expire"
                  key st
            | None => st
            end in
  TString.addReply (default TString.shared_ok ok_reply) st.

(** [st'] keeps every key of [st], and gives an expiration time only to a
    key that had one or that it holds. *)
Definition db_extends (st st' : TString.state) : Prop :=
  (forall k, is_Some (TString.dict (TString.db st) !! k) ->
             is_Some (TString.dict (TString.db st') !! k))
  /\ (forall k, is_Some (TString.expires (TString.db st') !! k) ->
                is_Some (TString.expires (TString.db st) !! k)
                \/ is_Some (TString.dict (TString.db st') !! k)).

(** The commands of t_string.c that read only. *)
Definition reader_commands : list (TString.client -> TString.state -> TString.state) :=
  [TString.getCommand; TString.getrangeCommand; TString.mgetCommand;
   TString.strlenCommand].

(** The commands of t_string.c that add one reply (all but MGET and
    INCRBYFLOAT). *)
Definition single_reply_commands (shared_integers : Z)
  : list (TString.client -> TString.state -> TString.state) :=
  [TString.setCommand; TString.setnxCommand; TString.setexCommand;
   TString.psetexCommand; TString.getCommand; TString.getsetCommand;
   TString.setrangeCommand; TString.getrangeCommand; TString.msetCommand;
   TString.msetnxCommand; TString.incrCommand shared_integers;
   TString.decrCommand shared_integers; TString.incrbyCommand shared_integers;
   TString.decrbyCommand shared_integers; TString.appendCommand;
   TString.strlenCommand].

(** All the commands of t_string.c but INCRBYFLOAT. *)
Definition string_commands (shared_integers : Z)
  : list (TString.client -> TString.state -> TString.state) :=
  TString.mgetCommand :: single_reply_commands shared_integers.

(** * Properties *)

Import TString.

(** ** Integer conversions and the decimal helpers *)

Lemma to_ll_id (z : Z) : in_ll z -> to_ll z = z.
Proof.
  unfold in_ll, to_ll, LLONG_MIN, LLONG_MAX. intros Hz.
  rewrite Z.mod_small; lia.
Qed.

Lemma to_size_t_id (z : Z) : 0 <= z < 2 ^ 64 -> to_size_t z = z.
Proof. unfold to_size_t. intros Hz. by rewrite Z.mod_small. Qed.

Lemma to_ll_range (z : Z) : in_ll (to_ll z).
Proof.
  unfold in_ll, to_ll, LLONG_MIN, LLONG_MAX.
  pose proof (Z.mod_pos_bound (z + 2 ^ 63) (2 ^ 64)). lia.
Qed.

Lemma string2ll_range (s : sds) (z : Z) : string2ll s = Some z -> in_ll z.
Proof.
  unfold string2ll, in_ll.
  destruct (NilZero.int_of_string _); [|done].
  destruct (_ && _) eqn:Hb; [|done].
  intros [= <-]. apply andb_prop in Hb as [H1 H2]. lia.
Qed.

Lemma string2ll_ll2string (z : Z) : in_ll z -> string2ll (ll2string z) = Some z.
Proof.
  unfold in_ll, string2ll, ll2string. intros Hz.
  rewrite String.string_of_list_byte_of_string.
  rewrite NilZero.isi.
  - rewrite DecimalZ.of_to.
    destruct (_ && _) eqn:Hb; [done|].
    apply andb_false_iff in Hb as [Hb|Hb]; lia.
  - destruct z; simpl; try discriminate.
    intros [= Hp]. by apply DecimalPos.Unsigned.to_uint_nonnil in Hp.
  - destruct z; simpl; try discriminate.
    intros [= Hp]. by apply DecimalPos.Unsigned.to_uint_nonnil in Hp.
Qed.

Lemma sdslen_nonneg (s : sds) : 0 <= sdslen s.
Proof. unfold sdslen. lia. Qed.

Lemma sdslen_0 (s : sds) : sdslen s = 0 -> s = [].
Proof. unfold sdslen. destruct s; [done|]. simpl. lia. Qed.

(** ** q_thread.c: starting a thread *)

(** The sibling entry points test the descriptor before they touch it. *)
Lemma q_thread_init_null :
  QThread.q_thread_init None = QThread.Returns (C_ERR, None).
Proof. reflexivity. Qed.

Lemma q_thread_deinit_null :
  QThread.q_thread_deinit None = QThread.Returns None.
Proof. reflexivity. Qed.

(** C7, on a descriptor whose entry function is unset: the call returns
    C_ERR and the OS threads are the ones there were; the descriptor has
    its [cpu_id] written. *)
Lemma q_thread_start_no_entry (t : QThread.q_thread) (cpu : Z)
    (os : QThread.os_state) :
  QThread.fun_run t = None ->
  QThread.q_thread_start (Some t) cpu os
  = QThread.Returns (C_ERR, Some (QThread.set_cpu_id cpu t), os).
Proof.
  intros Hf. unfold QThread.q_thread_start. simpl. by rewrite Hf.
Qed.

Lemma q_thread_start_launches (t : QThread.q_thread) (cpu : Z)
    (os : QThread.os_state) (f : QThread.q_thread_func_run) :
  QThread.fun_run t = Some f ->
  (length (QThread.threads os) < QThread.max_threads os)%nat ->
  exists t', QThread.q_thread_start (Some t) cpu os
             = QThread.Returns
                 (C_OK, Some t',
                  QThread.add_thread
                    (QThread.mk_os_thread
                       (Z.of_nat (length (QThread.threads os)) + 1) t') os)
             /\ QThread.cpu_id t' = cpu /\ QThread.fun_run t' = Some f.
Proof.
  intros Hf Hroom. unfold QThread.q_thread_start. simpl. rewrite Hf. simpl.
  unfold QThread.pthread_create.
  apply Nat.ltb_lt in Hroom. rewrite Hroom. simpl.
  eexists. split; [reflexivity|]. by simpl.
Qed.

(** C7: q_thread_start on a null descriptor.  The specification asks for C_ERR
    and for field accesses on a non-null descriptor only; the function
    stores [cpu_id] through the descriptor before it tests it, so the call
    with a null descriptor is a null dereference and returns nothing. *)
Theorem q_thread_start_null_dereference (cpu : Z) (os : QThread.os_state) :
  QThread.q_thread_start None cpu os = QThread.NullDereference
  /\ forall r, QThread.q_thread_start None cpu os <> QThread.Returns r.
Proof. split; [reflexivity|]. intros r. discriminate. Qed.

(** ** SETRANGE and APPEND of nothing to a missing key *)

Lemma setrange_empty_value_missing_key (c : client) (st : state) (offset : Z) :
  lookupKeyWrite st (arg c 1) = None ->
  getLongLongFromObject (Some (arg c 2)) = Some offset ->
  0 <= offset <= LONG_MAX ->
  sdslen (ptr_sds (arg c 3)) = 0 ->
  setrangeCommand c st = addReply (IntegerReply 0) st.
Proof.
  intros Hk Ho Hr Hv.
  unfold setrangeCommand, getLongFromObjectOrReply,
    getLongLongFromObjectOrReply.
  rewrite Ho.
  replace ((offset <? LONG_MIN) || (LONG_MAX <? offset)) with false
    by (unfold LONG_MIN, LLONG_MIN in *; symmetry; apply orb_false_iff; lia).
  replace (offset <? 0) with false by lia.
  unfold setrange_target. rewrite Hk, Hv. reflexivity.
Qed.

Lemma append_missing_key (c : client) (st : state) :
  let key := dupStringObject (arg c 1) in
  let val := dupStringObject (arg c 2) in
  lookupKeyWrite st key = None ->
  appendCommand c st
  = addReplyLongLong (stringObjectLen val)
      (incr_dirty 1
         (notifyKeyspaceEvent NOTIFY_STRING "append" key
            (signalModifiedKey key (dbAdd key val st)))).
Proof. intros key val Hk. unfold appendCommand. fold key. by rewrite Hk. Qed.

(** C1 as stated fails for APPEND: on the empty keyspace, APPEND of the
    empty value to [k] replies 0 and yet creates [k], holding the empty
    string. *)
Lemma append_empty_value_creates_key :
  let c := command "append" ["k"; EmptyString] in
  let st' := appendCommand c empty_state in
  lookupKeyWrite empty_state (arg c 1) = None
  /\ sdslen (ptr_sds (arg c 2)) = 0
  /\ replies st' = [IntegerReply 0]
  /\ dict (db st') !! bytes "k" = Some (str_arg EmptyString)
  /\ db st' <> db empty_state.
Proof.
  repeat split; by vm_compute.
Qed.

(** C1, amended: on a key that does not exist, SETRANGE with a valid,
    non-negative offset and a zero-length value replies 0 and leaves the
    whole state but the reply sink as it was; APPEND with a zero-length
    value replies 0 too, but installs the key with the empty value, counts
    one mutation and emits the "append" notification. *)
Theorem setrange_append_empty_on_missing_key
    (st : state) (c_setrange c_append : client) (offset : Z) :
  lookupKeyWrite st (arg c_setrange 1) = None ->
  getLongLongFromObject (Some (arg c_setrange 2)) = Some offset ->
  0 <= offset <= LONG_MAX ->
  sdslen (ptr_sds (arg c_setrange 3)) = 0 ->
  lookupKeyWrite st (dupStringObject (arg c_append 1)) = None ->
  stringObjectLen (dupStringObject (arg c_append 2)) = 0 ->
  setrangeCommand c_setrange st = addReply (IntegerReply 0) st
  /\ let key := dupStringObject (arg c_append 1) in
     let st' := appendCommand c_append st in
     replies st' = replies st ++ [IntegerReply 0]
     /\ dict (db st')
        = <[ptr_sds key := dupStringObject (arg c_append 2)]> (dict (db st))
     /\ expires (db st') = expires (db st)
     /\ dirty st' = dirty st + 1
     /\ events st'
        = events st ++ [mk_event NOTIFY_STRING "append" (ptr_sds key)
                          (id (db st))].
Proof.
  intros Hk Ho Hr Hv Hk' Hv'. split.
  - by apply setrange_empty_value_missing_key with offset.
  - intros key st'. subst st'.
    rewrite append_missing_key by done. rewrite Hv'. by simpl.
Qed.

Lemma setrange_append_empty_on_missing_key_witness :
  setrangeCommand (command "setrange" ["k"; "5"; EmptyString]) empty_state
  = addReply (IntegerReply 0) empty_state
  /\ replies (appendCommand (command "append" ["k"; EmptyString]) empty_state)
     = [IntegerReply 0].
Proof.
  destruct (setrange_append_empty_on_missing_key empty_state
              (command "setrange" ["k"; "5"; EmptyString])
              (command "append" ["k"; EmptyString]) 5) as [H1 H2];
    [reflexivity | reflexivity | vm_compute; split; discriminate
    | reflexivity | reflexivity | reflexivity |].
  split; [exact H1 | exact (proj1 H2)].
Defined.

(** ** GETRANGE *)

Lemma to_ll_to_size_t (z : Z) : in_ll z -> to_ll (to_size_t z) = z.
Proof.
  intros Hz. unfold to_ll, to_size_t.
  rewrite Zplus_mod_idemp_l. by apply to_ll_id.
Qed.

(** Within the signed 64-bit range the index arithmetic never wraps. *)
Lemma getrange_bounds_exact (strlen start end_ : Z) :
  0 <= strlen <= LLONG_MAX -> in_ll start -> in_ll end_ ->
  getrange_bounds strlen start end_
  = if (start <? 0) && (end_ <? 0) && (start >? end_) then None
    else
      let norm i := if i <? 0 then strlen + i else i in
      let s := Z.max 0 (norm start) in
      let e := Z.min (strlen - 1) (Z.max 0 (norm end_)) in
      if (s >? e) || (strlen =? 0) then None else Some (s, e - s + 1).
Proof.
  unfold in_ll, LLONG_MAX, LLONG_MIN. intros Hl Hs He.
  unfold getrange_bounds.
  destruct ((start <? 0) && (end_ <? 0) && (start >? end_)); [done|].
  cbv zeta.
  assert (Hs' : (if start <? 0 then to_ll (to_size_t (strlen + start)) else start)
                = if start <? 0 then strlen + start else start).
  { destruct (Z.ltb_spec start 0); [|done].
    apply to_ll_to_size_t. ll_lia. }
  assert (He' : (if end_ <? 0 then to_ll (to_size_t (strlen + end_)) else end_)
                = if end_ <? 0 then strlen + end_ else end_).
  { destruct (Z.ltb_spec end_ 0); [|done].
    apply to_ll_to_size_t. ll_lia. }
  rewrite Hs', He'. clear Hs' He'.
  set (ns := if start <? 0 then strlen + start else start).
  set (ne := if end_ <? 0 then strlen + end_ else end_).
  assert (Hns : -2 ^ 63 <= ns < 2 ^ 63)
    by (subst ns; destruct (Z.ltb_spec start 0); lia).
  assert (Hne : -2 ^ 63 <= ne < 2 ^ 63)
    by (subst ne; destruct (Z.ltb_spec end_ 0); lia).
  replace (if ns <? 0 then 0 else ns) with (Z.max 0 ns)
    by (destruct (Z.ltb_spec ns 0); lia).
  replace (if ne <? 0 then 0 else ne) with (Z.max 0 ne)
    by (destruct (Z.ltb_spec ne 0); lia).
  rewrite (to_size_t_id (Z.max 0 ne)) by lia.
  rewrite (to_ll_to_size_t (strlen - 1))
    by ll_lia.
  replace (if Z.max 0 ne >=? strlen then strlen - 1 else Z.max 0 ne)
    with (Z.min (strlen - 1) (Z.max 0 ne))
    by (destruct (Z.geb_spec (Z.max 0 ne) strlen); lia).
  destruct ((Z.max 0 ns >? _) || _) eqn:Hc; [done|].
  apply orb_false_iff in Hc as [Hc1 Hc2].
  rewrite to_size_t_id; [done|]. lia.
Qed.

Lemma getrange_on_string (c : client) (st : state) (o : robj)
    (start end_ : Z) :
  lookupKeyRead st (arg c 1) = Some o ->
  type o = OBJ_STRING ->
  encoding o = OBJ_ENCODING_RAW \/ encoding o = OBJ_ENCODING_INT ->
  getLongLongFromObject (Some (arg c 2)) = Some start ->
  getLongLongFromObject (Some (arg c 3)) = Some end_ ->
  getrangeCommand c st
  = match getrange_bounds (sdslen (string_bytes o)) start end_ with
    | None => addReply shared_emptybulk st
    | Some (s, n) =>
        addReply (BulkReply (take (Z.to_nat n)
                               (drop (Z.to_nat s) (string_bytes o)))) st
    end.
Proof.
  intros Hk Ht He Hs Hen.
  unfold getrangeCommand, getLongLongFromObjectOrReply, lookupKeyReadOrReply,
    checkType.
  rewrite Hs, Hen, Hk. rewrite decide_True by done.
  assert (Hstr : (if decide (encoding o = OBJ_ENCODING_INT)
                  then ll2string (ptr_long o) else ptr_sds o)
                 = string_bytes o).
  { unfold string_bytes, sdsEncodedObject.
    destruct He as [He|He]; rewrite He; by simpl. }
  rewrite Hstr. reflexivity.
Qed.

Lemma getrange_spec_amended_bounds (s : sds) (start end_ : Z) :
  0 <= sdslen s <= LLONG_MAX -> in_ll start -> in_ll end_ ->
  getrange_spec_amended s start end_
  = match getrange_bounds (sdslen s) start end_ with
    | None => []
    | Some (i, n) => take (Z.to_nat n) (drop (Z.to_nat i) s)
    end.
Proof.
  intros Hl Hs He. rewrite getrange_bounds_exact by done.
  unfold getrange_spec_amended.
  destruct (_ && _ && _); [done|]. cbv zeta.
  by destruct (_ || _).
Qed.

(** C2 as stated fails: on "Hello World", GETRANGE k 0 -100 replies "H".
    The end index normalizes to -89, which the specification's words leave
    below the start, so that they ask for the empty string. *)
Lemma getrange_end_below_zero_replies_first_byte :
  let st := setCommand (command "set" ["k"; "Hello World"]) empty_state in
  let st' := getrangeCommand (command "getrange" ["k"; "0"; "-100"]) st in
  replies st' = replies st ++ [BulkReply (bytes "H")]
  /\ getrange_spec (bytes "Hello World") 0 (-100) = []
  /\ replies st'
     <> replies st ++ [BulkReply (getrange_spec (bytes "Hello World") 0 (-100))].
Proof. repeat split; by vm_compute. Qed.

(** C2, amended: for every stored string value of length len (at most the
    512 MiB ceiling) and every pair of integer arguments start and end,
    GETRANGE replies the empty string at once when both are negative and
    start is above end; otherwise it normalizes a negative index to
    len + index, clamps a start or an end that is still negative up to 0
    and an end above len-1 down to len-1, and replies the bytes from start
    to end inclusive, or the empty string when start exceeds end or the
    string is empty.  The reply is always a bulk string, never an error. *)
Theorem getrange_reply_amended (c : client) (st : state) (o : robj)
    (start end_ : Z) :
  lookupKeyRead st (arg c 1) = Some o ->
  type o = OBJ_STRING ->
  encoding o = OBJ_ENCODING_RAW \/ encoding o = OBJ_ENCODING_INT ->
  sdslen (string_bytes o) <= 512 * 1024 * 1024 ->
  getLongLongFromObject (Some (arg c 2)) = Some start -> in_ll start ->
  getLongLongFromObject (Some (arg c 3)) = Some end_ -> in_ll end_ ->
  getrangeCommand c st
  = addReply (BulkReply (getrange_spec_amended (string_bytes o) start end_)) st.
Proof.
  intros Hk Ht Henc Hlen Hs Hsr He Her.
  rewrite (getrange_on_string c st o start end_) by done.
  rewrite getrange_spec_amended_bounds; try done.
  - by destruct (getrange_bounds _ _ _) as [[i n]|].
  - pose proof (sdslen_nonneg (string_bytes o)). unfold LLONG_MAX. lia.
Qed.

(** The boundary cases of the specification, on "Hello World". *)
Lemma getrange_reply_amended_witness :
  let st := setCommand (command "set" ["k"; "Hello World"]) empty_state in
  getrangeCommand (command "getrange" ["k"; "-3"; "-1"]) st
  = addReply (BulkReply (bytes "rld")) st
  /\ getrangeCommand (command "getrange" ["k"; "0"; "-1"]) st
     = addReply (BulkReply (bytes "Hello World")) st
  /\ getrangeCommand (command "getrange" ["k"; "5"; "2"]) st
     = addReply (BulkReply []) st.
Proof.
  intros st.
  assert (Hin : forall z, (LLONG_MIN <=? z) && (z <=? LLONG_MAX) = true -> in_ll z).
  { intros z Hz. apply andb_prop in Hz as [H1 H2]. unfold in_ll. lia. }
  split; [|split].
  - rewrite (getrange_reply_amended (command "getrange" ["k"; "-3"; "-1"]) st
               (str_arg "Hello World") (-3) (-1));
      [reflexivity | reflexivity | reflexivity | by left | by vm_compute
      | reflexivity | by apply Hin | reflexivity | by apply Hin].
  - rewrite (getrange_reply_amended (command "getrange" ["k"; "0"; "-1"]) st
               (str_arg "Hello World") 0 (-1));
      [reflexivity | reflexivity | reflexivity | by left | by vm_compute
      | reflexivity | by apply Hin | reflexivity | by apply Hin].
  - rewrite (getrange_reply_amended (command "getrange" ["k"; "5"; "2"]) st
               (str_arg "Hello World") 5 2);
      [reflexivity | reflexivity | reflexivity | by left | by vm_compute
      | reflexivity | by apply Hin | reflexivity | by apply Hin].
Defined.

(** ** INCR, DECR, INCRBY, DECRBY *)

(** The pre-check decides overflow of the exact sum: the headroom
    [LLONG_MIN - oldvalue] (resp. [LLONG_MAX - oldvalue]) is only computed
    where it cannot wrap itself. *)
Lemma incr_overflows_spec (v i : Z) :
  in_ll v -> in_ll i -> (incr_overflows v i = true <-> ~ in_ll (v + i)).
Proof.
  unfold in_ll, incr_overflows, LLONG_MIN, LLONG_MAX. intros Hv Hi.
  destruct (Z.ltb_spec i 0) as [Hi0|Hi0];
    destruct (Z.ltb_spec v 0) as [Hv0|Hv0]; simpl.
  - rewrite to_ll_id by ll_lia.
    replace (i >? 0) with false by lia. simpl. rewrite orb_false_r.
    rewrite Z.ltb_lt. lia.
  - replace (i >? 0) with false by lia. simpl. split; [done | lia].
  - destruct (Z.gtb_spec i 0); simpl.
    + replace (v >? 0) with false by lia. simpl. split; [done | lia].
    + split; [done | lia].
  - destruct (Z.gtb_spec i 0); simpl; [|split; [done | lia]].
    destruct (Z.gtb_spec v 0); simpl; [|split; [done | lia]].
    rewrite to_ll_id by ll_lia.
    rewrite Z.gtb_gt. lia.
Qed.

Section IncrFacts.

Variable OBJ_SHARED_INTEGERS : Z.

Lemma incrDecr_prefix (c : client) (st : state) (o : option robj) (v i : Z) :
  lookupKeyWrite st (arg c 1) = o ->
  (forall o', o = Some o' -> type o' = OBJ_STRING) ->
  getLongLongFromObject o = Some v ->
  incrDecrCommand OBJ_SHARED_INTEGERS c i st
  = if incr_overflows v i then
      addReplyError "increment or decrement would overflow" st
    else
      let value := to_ll (v + i) in
      let '(st, new) :=
        match o with
        | Some o' =>
            if (refcount o' =? 1)
               && bool_decide (encoding o' = OBJ_ENCODING_INT)
               && ((value <? 0) || (value >=? OBJ_SHARED_INTEGERS))
               && (value >=? LONG_MIN) && (value <=? LONG_MAX)
            then publish (arg c 1) o' (PLong value) st
            else
              let new := createStringObjectFromLongLong
                           OBJ_SHARED_INTEGERS value in
              (dbOverwrite (arg c 1) new st, new)
        | None =>
            let new := createStringObjectFromLongLong
                         OBJ_SHARED_INTEGERS value in
            (dbAdd (arg c 1) new st, new)
        end in
      addReplyColonObject new
        (incr_dirty 1
           (notifyKeyspaceEvent NOTIFY_STRING "incrby" (arg c 1)
              (signalModifiedKey (arg c 1) st))).
Proof.
  intros Hk Ht Hv. unfold incrDecrCommand. rewrite Hk.
  assert (Hc : match o with
               | Some o' => checkType st o' OBJ_STRING
               | None => (st, false)
               end = (st, false)).
  { destruct o as [o'|]; [|done].
    unfold checkType. by rewrite decide_True by (by apply Ht). }
  rewrite Hc. unfold getLongLongFromObjectOrReply. by rewrite Hv.
Qed.



(** The four commands are incrDecrCommand at 1, -1, the parsed argument and
    its negation. *)
Lemma incrby_is_incrDecr (c : client) (st : state) (i : Z) :
  getLongLongFromObject (Some (arg c 2)) = Some i ->
  incrbyCommand OBJ_SHARED_INTEGERS c st
  = incrDecrCommand OBJ_SHARED_INTEGERS c i st
  /\ decrbyCommand OBJ_SHARED_INTEGERS c st
     = incrDecrCommand OBJ_SHARED_INTEGERS c (to_ll (- i)) st.
Proof.
  intros Hi. unfold incrbyCommand, decrbyCommand, getLongLongFromObjectOrReply.
  by rewrite Hi.
Qed.

End IncrFacts.




(** C3: DECRBY k LLONG_MIN on a key that does not exist.  The exact result,
    0 - LLONG_MIN, is above LLONG_MAX, so the claim asks for the overflow
    error and an unchanged key.  decrbyCommand negates its argument before
    the pre-check sees it; the negation of LLONG_MIN is LLONG_MIN again, the
    pre-check finds LLONG_MIN + 0 in range, and the command replies
    LLONG_MIN, stores it under [k] and counts a mutation. *)
Theorem decrby_llong_min_not_refused (shared_integers : Z) :
  let c := command "decrby" ["k"; "-9223372036854775808"] in
  let st' := decrbyCommand shared_integers c empty_state in
  getLongLongFromObject (Some (arg c 2)) = Some LLONG_MIN
  /\ getLongLongFromObject (lookupKeyWrite empty_state (arg c 1)) = Some 0
  /\ ~ in_ll (0 - LLONG_MIN)
  /\ to_ll (- LLONG_MIN) = LLONG_MIN
  /\ replies st' = [IntegerReply LLONG_MIN]
  /\ lookupKeyWrite st' (arg c 1)
     = Some (mk_robj OBJ_STRING OBJ_ENCODING_INT 1 (PLong LLONG_MIN))
  /\ dirty st' = 1.
Proof.
  intros c st'.
  assert (Hcmd : st' = incrDecrCommand shared_integers c LLONG_MIN empty_state).
  { subst st'.
    by destruct (incrby_is_incrDecr shared_integers c empty_state LLONG_MIN)
      as [_ ->]; [vm_compute|]. }
  split; [by vm_compute|]. split; [by vm_compute|].
  split; [intros [_ Hmax]; vm_compute in Hmax; by apply Hmax|].
  split; [by vm_compute|].
  rewrite Hcmd.
  rewrite (incrDecr_prefix shared_integers c empty_state None 0 LLONG_MIN);
    [|reflexivity|discriminate|reflexivity].
  change (incr_overflows 0 LLONG_MIN) with false. cbv iota zeta.
  change (to_ll (0 + LLONG_MIN)) with LLONG_MIN.
  unfold createStringObjectFromLongLong.
  change ((0 <=? LLONG_MIN) && (LLONG_MIN <? shared_integers)) with false.
  cbv iota.
  change ((LONG_MIN <=? LLONG_MIN) && (LLONG_MIN <=? LONG_MAX)) with true.
  cbv iota.
  repeat split; by vm_compute.
Qed.

(** ** MSET and MSETNX *)

Lemma setKey_dict (key val : robj) (st : state) :
  dict (db (setKey key val st)) = <[ptr_sds key := val]> (dict (db st))
  /\ replies (setKey key val st) = replies st
  /\ dirty (setKey key val st) = dirty st
  /\ events (setKey key val st) = events st
  /\ id (db (setKey key val st)) = id (db st).
Proof. unfold setKey. by destruct (lookupKeyWrite st key). Qed.

Lemma mset_busykeys_ge (st : state) (pairs : list (robj * robj)) (n : Z) :
  n <= mset_busykeys st (concat (map (fun kv => [kv.1; kv.2]) pairs)) n.
Proof.
  revert n. induction pairs as [|kv pairs IH]; intros n; simpl; [lia|].
  destruct (is_null _); [apply IH|].
  etrans; [|apply IH]. lia.
Qed.

Lemma mset_busykeys_none (st : state) (pairs : list (robj * robj)) (n : Z) :
  (forall kv, kv ∈ pairs -> dict (db st) !! pair_key kv = None) ->
  mset_busykeys st (concat (map (fun kv => [kv.1; kv.2]) pairs)) n = n.
Proof.
  revert n. induction pairs as [|kv pairs IH]; intros n Hnone; [done|].
  simpl. unfold lookupKeyWrite, lookupKey.
  fold (pair_key kv). rewrite (Hnone kv) by left. simpl.
  apply IH. intros kv' Hin. apply Hnone. by right.
Qed.

Lemma mset_busykeys_some (st : state) (pairs : list (robj * robj)) (n : Z) :
  (exists kv, kv ∈ pairs /\ is_Some (dict (db st) !! pair_key kv)) ->
  n < mset_busykeys st (concat (map (fun kv => [kv.1; kv.2]) pairs)) n.
Proof.
  revert n. induction pairs as [|kv pairs IH]; intros n (kv' & Hin & Hsome).
  - by apply elem_of_nil in Hin.
  - simpl. unfold lookupKeyWrite, lookupKey. fold (pair_key kv).
    apply elem_of_cons in Hin as [->|Hin].
    + destruct Hsome as [o Ho]. rewrite Ho. simpl.
      pose proof (mset_busykeys_ge st pairs (n + 1)). lia.
    + destruct (is_null _).
      * apply IH. eauto.
      * pose proof (mset_busykeys_ge st pairs (n + 1)). lia.
Qed.

Lemma mset_write_pairs (pairs : list (robj * robj)) (st : state) :
  let st' := mset_write (concat (map (fun kv => [kv.1; kv.2]) pairs)) st in
  dict (db st')
  = foldl (fun d kv => <[pair_key kv := pair_val kv]> d) (dict (db st)) pairs
  /\ replies st' = replies st
  /\ dirty st' = dirty st
  /\ events st'
     = events st ++ map (fun kv => mk_event NOTIFY_STRING "set" (pair_key kv)
                                     (id (db st))) pairs.
Proof.
  revert st. induction pairs as [|kv pairs IH]; intros st.
  - simpl. by rewrite app_nil_r.
  - simpl.
    set (st1 := notifyKeyspaceEvent NOTIFY_STRING "set"
                  (dupStringObject kv.1)
                  (setKey (dupStringObject kv.1) (dupStringObject kv.2) st)).
    destruct (IH st1) as (Hd & Hr & Hdi & He).
    destruct (setKey_dict (dupStringObject kv.1) (dupStringObject kv.2) st)
      as (Hd1 & Hr1 & Hdi1 & He1 & Hid1).
    rewrite Hd, Hr, Hdi, He. subst st1.
    unfold notifyKeyspaceEvent. cbn [db dict replies dirty events id].
    rewrite Hd1, Hr1, Hdi1, He1, Hid1.
    repeat split. by rewrite <- app_assoc.
Qed.

Lemma foldl_insert_last_value (pairs : list (robj * robj))
    (d : gmap sds robj) (k : sds) :
  foldl (fun d kv => <[pair_key kv := pair_val kv]> d) d pairs !! k
  = match last_value k pairs with
    | Some v => Some v
    | None => d !! k
    end.
Proof.
  unfold last_value.
  induction pairs as [|kv pairs IH] using rev_ind; [done|].
  rewrite !foldl_app. simpl.
  destruct (decide (pair_key kv = k)) as [->|Hne].
  - by rewrite lookup_insert_eq.
  - by rewrite lookup_insert_ne.
Qed.

Lemma mset_client_argc (name : string) (pairs : list (robj * robj)) :
  argc (mset_client name pairs) = 2 * Z.of_nat (length pairs) + 1.
Proof.
  unfold argc, mset_client. simpl.
  assert (length (concat (map (fun kv : robj * robj => [kv.1; kv.2]) pairs))
          = (2 * length pairs)%nat) as ->; [|lia].
  induction pairs as [|kv pairs IH]; simpl; lia.
Qed.

(** C4: MSETNX is all-or-nothing.  The existence test reads the state the
    command starts from, for every target key, before any write.  If some
    target key exists the command replies 0 and the state is otherwise the
    one it started from; if none exists it replies 1, every key holds the
    value of the last pair that names it, every other key is as before,
    and the dirty counter has grown by the number of pairs. *)
Theorem msetnx_all_or_nothing (name : string) (pairs : list (robj * robj))
    (st : state) :
  let st' := msetnxCommand (mset_client name pairs) st in
  ((exists kv, kv ∈ pairs /\ is_Some (dict (db st) !! pair_key kv)) ->
   st' = addReply (IntegerReply 0) st)
  /\ ((forall kv, kv ∈ pairs -> dict (db st) !! pair_key kv = None) ->
      replies st' = replies st ++ [IntegerReply 1]
      /\ (forall k, dict (db st') !! k
                    = match last_value k pairs with
                      | Some v => Some v
                      | None => dict (db st) !! k
                      end)
      /\ dirty st' = dirty st + Z.of_nat (length pairs)).
Proof.
  intros st'. subst st'.
  unfold msetnxCommand, msetGenericCommand.
  rewrite mset_client_argc.
  assert (Hrem : Z.rem (2 * Z.of_nat (length pairs) + 1) 2 = 1).
  { rewrite Z.rem_mod_nonneg by lia.
    rewrite Z.add_comm, Z.mul_comm. by rewrite Z_mod_plus_full. }
  assert (Hquot : Z.quot (2 * Z.of_nat (length pairs) + 1 - 1) 2
                  = Z.of_nat (length pairs)).
  { rewrite Z.quot_div_nonneg by lia.
    replace (2 * Z.of_nat (length pairs) + 1 - 1)
      with (Z.of_nat (length pairs) * 2) by lia.
    by rewrite Z.div_mul. }
  rewrite Hrem, Hquot.
  change (drop 1 (argv (mset_client name pairs)))
    with (concat (map (fun kv : robj * robj => [kv.1; kv.2]) pairs)).
  cbn [Z.eqb andb negb]. split.
  - intros Hbusy. apply (mset_busykeys_some st pairs 0) in Hbusy.
    destruct (Z.eqb_spec (mset_busykeys st
      (concat (map (fun kv : robj * robj => [kv.1; kv.2]) pairs)) 0) 0)
      as [Heq|Hne]; [lia|done].
  - intros Hfree. rewrite (mset_busykeys_none st pairs 0 Hfree).
    cbn [Z.eqb negb].
    destruct (mset_write_pairs pairs st) as (Hd & Hr & Hdi & _).
    cbn [addReply incr_dirty replies dirty db]. rewrite Hr, Hdi, Hd.
    repeat split. intros k. apply foldl_insert_last_value.
Qed.

(** MSETNX a 1 b 2 on the empty keyspace succeeds; MSETNX a 9 c 3 then
    fails, [a] still holds 1 and [c] is not created. *)
Lemma msetnx_all_or_nothing_witness :
  let st1 := msetnxCommand (command "msetnx" ["a"; "1"; "b"; "2"])
               empty_state in
  let st2 := msetnxCommand (command "msetnx" ["a"; "9"; "c"; "3"]) st1 in
  replies st1 = [IntegerReply 1]
  /\ dict (db st1) !! bytes "a" = Some (str_arg "1")
  /\ dict (db st1) !! bytes "b" = Some (str_arg "2")
  /\ st2 = addReply (IntegerReply 0) st1
  /\ dict (db st2) !! bytes "a" = Some (str_arg "1")
  /\ dict (db st2) !! bytes "c" = None.
Proof.
  intros st1 st2.
  destruct (msetnx_all_or_nothing "msetnx"
              [(str_arg "a", str_arg "1"); (str_arg "b", str_arg "2")]
              empty_state) as [_ Hok].
  destruct Hok as (Hr & Hd & _).
  { intros kv Hin. apply list_elem_of_In in Hin.
    destruct Hin as [<-|[<-|[]]]; reflexivity. }
  destruct (msetnx_all_or_nothing "msetnx"
              [(str_arg "a", str_arg "9"); (str_arg "c", str_arg "3")]
              st1) as [Hfail _].
  assert (H2 : st2 = addReply (IntegerReply 0) st1).
  { apply Hfail. exists (str_arg "a", str_arg "9"). split; [by left|].
    vm_compute. eauto. }
  split; [exact Hr|]. split; [exact (Hd (bytes "a"))|].
  split; [exact (Hd (bytes "b"))|]. split; [exact H2|].
  rewrite H2. split; [exact (Hd (bytes "a"))|]. exact (Hd (bytes "c")).
Defined.

(** ** The 512 MiB ceiling of SETRANGE and APPEND *)

Lemma setrange_offset_accepted (c : client) (st : state) (offset : Z) :
  getLongLongFromObject (Some (arg c 2)) = Some offset ->
  0 <= offset <= LONG_MAX ->
  setrangeCommand c st
  = match setrange_target c offset (ptr_sds (arg c 3)) st with
    | (st, None) => st
    | (st, Some o) =>
        let value := ptr_sds (arg c 3) in
        let '(st, o) :=
          if sdslen value >? 0 then
            let oc := ptr o in
            let nc := sdsdup (ptr_sds o) in
            let nc := sdsgrowzero nc (to_size_t (offset + sdslen value)) in
            let nc := memcpy_at nc offset value in
            let '(st, o) := publish (arg c 1) o (PSds nc) st in
            let st := rcu_log [synchronize_rcu; sdsfree oc] st in
            let st := signalModifiedKey (arg c 1) st in
            let st := notifyKeyspaceEvent NOTIFY_STRING "setrange"
                        (arg c 1) st in
            (incr_dirty 1 st, o)
          else (st, o) in
        addReplyLongLong (sdslen (ptr_sds o)) st
    end.
Proof.
  intros Ho Hr.
  unfold setrangeCommand, getLongFromObjectOrReply,
    getLongLongFromObjectOrReply.
  rewrite Ho.
  replace ((offset <? LONG_MIN) || (LONG_MAX <? offset)) with false
    by (unfold LONG_MIN, LLONG_MIN in *; symmetry; apply orb_false_iff; lia).
  by replace (offset <? 0) with false by lia.
Qed.

(** Where the sum [offset + sdslen(value)] still fits a [long long], a
    SETRANGE whose result would exceed the ceiling is refused and nothing
    but the reply sink changes. *)
Lemma setrange_too_long_refused (c : client) (st : state) (offset : Z) :
  getLongLongFromObject (Some (arg c 2)) = Some offset ->
  0 <= offset ->
  sdslen (ptr_sds (arg c 3)) <> 0 ->
  (forall o, lookupKeyWrite st (arg c 1) = Some o -> type o = OBJ_STRING) ->
  512 * 1024 * 1024 < offset + sdslen (ptr_sds (arg c 3)) <= LLONG_MAX ->
  setrangeCommand c st
  = addReplyError "string exceeds maximum allowed size (512MB)" st.
Proof.
  intros Ho H0 Hv Ht Hlen.
  pose proof (sdslen_nonneg (ptr_sds (arg c 3))) as Hnn.
  rewrite (setrange_offset_accepted c st offset)
    by (done || unfold LONG_MAX; lia).
  unfold setrange_target, checkStringLength.
  rewrite to_ll_to_size_t by ll_lia.
  replace (sdslen (ptr_sds (arg c 3)) =? 0) with false by lia.
  replace (offset + sdslen (ptr_sds (arg c 3)) >? 512 * 1024 * 1024)
    with true by lia.
  destruct (lookupKeyWrite st (arg c 1)) as [o|] eqn:Hk; [|done].
  unfold checkType. by rewrite decide_True by (by apply Ht).
Qed.

(** An APPEND to an existing string whose result would exceed the ceiling
    is refused and nothing but the reply sink changes. *)
Lemma append_too_long_refused (c : client) (st : state) (o : robj) :
  lookupKeyWrite st (dupStringObject (arg c 1)) = Some o ->
  type o = OBJ_STRING ->
  512 * 1024 * 1024
  < stringObjectLen o + sdslen (ptr_sds (dupStringObject (arg c 2)))
  <= LLONG_MAX ->
  appendCommand c st
  = addReplyError "string exceeds maximum allowed size (512MB)" st.
Proof.
  intros Hk Ht Hlen. unfold appendCommand. rewrite Hk.
  unfold checkType. rewrite decide_True by done.
  unfold checkStringLength.
  rewrite to_ll_to_size_t by ll_lia.
  by replace (_ >? 512 * 1024 * 1024) with true by lia.
Qed.

(** When the length test passes on a missing key, SETRANGE installs the
    key and replies a length. *)
Lemma setrange_missing_key_written (c : client) (st : state) (offset : Z) :
  getLongLongFromObject (Some (arg c 2)) = Some offset ->
  0 <= offset <= LONG_MAX ->
  lookupKeyWrite st (arg c 1) = None ->
  sdslen (ptr_sds (arg c 3)) > 0 ->
  checkStringLength st (to_ll (to_size_t (offset + sdslen (ptr_sds (arg c 3)))))
  = (st, C_OK) ->
  let st' := setrangeCommand c st in
  exists o, dict (db st') !! ptr_sds (arg c 1) = Some o
            /\ replies st' = replies st ++ [IntegerReply (sdslen (ptr_sds o))]
            /\ dirty st' = dirty st + 1.
Proof.
  intros Ho Hr Hk Hv Hcheck st'. subst st'.
  rewrite (setrange_offset_accepted c st offset) by done.
  unfold setrange_target. rewrite Hk, Hcheck.
  replace (sdslen (ptr_sds (arg c 3)) =? 0) with false by lia.
  replace (sdslen (ptr_sds (arg c 3)) >? 0) with true by lia.
  eexists. unfold publish.
  cbn [addReplyLongLong addReply incr_dirty notifyKeyspaceEvent
         signalModifiedKey rcu_log set_dict set_db dbAdd db dict replies dirty].
  split; [apply lookup_insert_eq|]. by split.
Qed.

(** C6 at SETRANGE k 9223372036854775807 x on the empty keyspace: the
    resulting length 2^63 exceeds the ceiling, but the sum handed to
    checkStringLength is negative as a [long long]; the test passes, no
    length-limit error is replied and the command takes the writing path
    (in the embedding, whose buffers are unbounded, it installs [k]). *)
Theorem setrange_length_check_wraps :
  let c := command "setrange" ["k"; "9223372036854775807"; "x"] in
  let st' := setrangeCommand c empty_state in
  getLongLongFromObject (Some (arg c 2)) = Some LLONG_MAX
  /\ LLONG_MAX + sdslen (ptr_sds (arg c 3)) > 512 * 1024 * 1024
  /\ to_ll (to_size_t (LLONG_MAX + sdslen (ptr_sds (arg c 3)))) = LLONG_MIN
  /\ checkStringLength empty_state
       (to_ll (to_size_t (LLONG_MAX + sdslen (ptr_sds (arg c 3)))))
     = (empty_state, C_OK)
  /\ is_Some (dict (db st') !! bytes "k")
  /\ ErrorReply "string exceeds maximum allowed size (512MB)" ∉ replies st'.
Proof.
  intros c st'.
  assert (Hcheck : checkStringLength empty_state
            (to_ll (to_size_t (LLONG_MAX + sdslen (ptr_sds (arg c 3)))))
          = (empty_state, C_OK)) by (by vm_compute).
  destruct (setrange_missing_key_written c empty_state LLONG_MAX)
    as (o & Hd & Hrep & _);
    [by vm_compute | by vm_compute | by vm_compute | by vm_compute
    | exact Hcheck |].
  split; [by vm_compute|]. split; [by vm_compute|].
  split; [by vm_compute|]. split; [exact Hcheck|].
  split; [exists o; exact Hd|].
  subst st'. rewrite Hrep. intros Hin.
  simpl in Hin. apply list_elem_of_singleton in Hin. discriminate.
Qed.

(** ** SET then GET *)

(** C8: for every key [k] and every byte string [v], SET k v replies OK
    and a following GET k replies exactly [v]. *)
Theorem set_get_roundtrip (k v : sds) (st : state) :
  let st1 := setCommand
               (mk_client [str_arg "set"; createStringObject k;
                           createStringObject v] "set") st in
  let st2 := getCommand
               (mk_client [str_arg "get"; createStringObject k] "get") st1 in
  replies st1 = replies st ++ [StatusReply "OK"]
  /\ st2 = addReply (BulkReply v) st1
  /\ replies st2 = replies st ++ [StatusReply "OK"; BulkReply v].
Proof.
  intros st1 st2.
  assert (Hst1 : st1 = addReply (StatusReply "OK")
                   (notifyKeyspaceEvent NOTIFY_STRING "set"
                      (createStringObject k)
                      (incr_dirty 1
                         (setKey (createStringObject k)
                            (createStringObject v) st)))) by reflexivity.
  destruct (setKey_dict (createStringObject k) (createStringObject v) st)
    as (Hd & Hr & _).
  assert (Hlook : lookupKeyRead st1 (createStringObject k)
                  = Some (createStringObject v)).
  { rewrite Hst1. unfold lookupKeyRead, lookupKey.
    cbn [addReply notifyKeyspaceEvent incr_dirty db dict].
    rewrite Hd. apply lookup_insert_eq. }
  assert (Hst2 : st2 = addReply (BulkReply v) st1).
  { subst st2. unfold getCommand, getGenericCommand, lookupKeyReadOrReply.
    change (arg (mk_client [str_arg "get"; createStringObject k] "get") 1)
      with (createStringObject k).
    by rewrite Hlook. }
  assert (Hr1 : replies st1 = replies st ++ [StatusReply "OK"]).
  { rewrite Hst1. cbn [addReply notifyKeyspaceEvent incr_dirty replies].
    by rewrite Hr. }
  split; [exact Hr1|]. split; [exact Hst2|].
  rewrite Hst2. cbn [addReply replies]. rewrite Hr1.
  by rewrite <- app_assoc.
Qed.

(** ** GET and MGET *)

Lemma mget_elements (keys : list robj) (st : state) :
  let st' := foldl mget_element st keys in
  replies st' = replies st ++ map (mget_reply (dict (db st))) keys
  /\ db st' = db st /\ dirty st' = dirty st /\ events st' = events st.
Proof.
  revert st. induction keys as [|key keys IH]; intros st.
  - simpl. by rewrite app_nil_r.
  - simpl. destruct (IH (mget_element st key)) as (Hr & Hd & Hdi & He).
    rewrite Hr, Hd, Hdi, He.
    assert (Hstep : replies (mget_element st key)
                    = replies st ++ [mget_reply (dict (db st)) key]
                    /\ db (mget_element st key) = db st
                    /\ dirty (mget_element st key) = dirty st
                    /\ events (mget_element st key) = events st).
    { unfold mget_element, mget_reply, lookupKeyRead, lookupKey.
      destruct (dict (db st) !! ptr_sds key) as [o|]; [|done].
      destruct (decide (type o = OBJ_STRING)) as [Ht|Ht].
      - by rewrite bool_decide_eq_false_2 by (by intros ?).
      - by rewrite bool_decide_eq_true_2. }
    destruct Hstep as (-> & -> & -> & ->).
    by rewrite <- app_assoc.
Qed.

(** C9: GET replies the null marker on a missing key, the wrong-type error
    on a key that holds a non-string, and the value otherwise.  MGET
    replies a multi-bulk header followed by one element per requested key:
    the null marker where the key is missing or holds a non-string, the
    value otherwise; it never replies an error and changes nothing. *)
Theorem get_mget_replies (c : client) (st : state) :
  getCommand c st
  = addReply match lookupKeyRead st (arg c 1) with
             | None => NullBulk
             | Some o =>
                 if decide (type o = OBJ_STRING)
                 then BulkReply (string_bytes o)
                 else ErrorReply
                   "WRONGTYPE Operation against a key holding the wrong kind of value"
             end st
  /\ let keys := drop 1 (argv c) in
     let st' := mgetCommand c st in
     replies st'
     = replies st ++ MultiBulkLen (argc c - 1)
                       :: map (mget_reply (dict (db st))) keys
     /\ length (map (mget_reply (dict (db st))) keys) = length keys
     /\ (forall r, r ∈ map (mget_reply (dict (db st))) keys ->
                   r = NullBulk \/ exists s, r = BulkReply s)
     /\ db st' = db st /\ dirty st' = dirty st.
Proof.
  split.
  - unfold getCommand, getGenericCommand, lookupKeyReadOrReply.
    destruct (lookupKeyRead st (arg c 1)) as [o|]; [|done].
    destruct (decide (type o = OBJ_STRING)) as [Ht|Ht].
    + by rewrite bool_decide_eq_false_2 by (by intros ?).
    + by rewrite bool_decide_eq_true_2.
  - intros keys st'. subst st'. unfold mgetCommand. fold keys.
    destruct (mget_elements keys (addReplyMultiBulkLen (argc c - 1) st))
      as (Hr & Hd & Hdi & _).
    rewrite Hr, Hd, Hdi. cbn [addReplyMultiBulkLen addReply replies db dirty].
    split; [by rewrite <- app_assoc|]. split; [by rewrite length_map|].
    split; [|done].
    intros r Hin. apply list_elem_of_fmap in Hin as (key & -> & _).
    unfold mget_reply. destruct (_ !! _) as [o|]; [|by left].
    destruct (decide _); [right; eauto | by left].
Qed.

(** ** SET, SETEX and PSETEX with an expire time that is not positive *)

(** C10: when the expire argument parses to an integer that is zero or
    negative, setGenericCommand, and with it SET with EX or PX, SETEX and
    PSETEX, replies the "invalid expire time" error and the state is
    otherwise untouched: no key is written, no expiration is set, the dirty
    counter stands and no notification is emitted. *)
Theorem expire_not_positive_rejected (c : client) (st : state) (e : robj)
    (ms : Z) :
  getLongLongFromObject (Some e) = Some ms ->
  ms <= 0 ->
  let rejected := addReplyError ("invalid expire time in " +:+ cmd_name c) st in
  (forall flags key val unit ok_reply abort_reply,
      setGenericCommand c flags key val (Some e) unit ok_reply abort_reply st
      = rejected)
  /\ (forall flags unit,
         set_options (drop 3 (argv c)) OBJ_SET_NO_FLAGS UNIT_SECONDS None
         = Some (flags, unit, Some e) ->
         setCommand c st = rejected)
  /\ (arg c 2 = e -> setexCommand c st = rejected
                     /\ psetexCommand c st = rejected)
  /\ db rejected = db st
  /\ dirty rejected = dirty st
  /\ events rejected = events st
  /\ replies rejected
     = replies st ++ [ErrorReply ("invalid expire time in " +:+ cmd_name c)].
Proof.
  intros He Hms rejected.
  assert (Hgen : forall flags key val unit ok_reply abort_reply,
             setGenericCommand c flags key val (Some e) unit ok_reply
               abort_reply st = rejected).
  { intros. unfold setGenericCommand, set_expire_arg,
      getLongLongFromObjectOrReply.
    rewrite He. by replace (ms <=? 0) with true by lia. }
  split; [exact Hgen|]. split; [|split].
  - intros flags unit Hopt. unfold setCommand. rewrite Hopt. apply Hgen.
  - intros <-. split; apply Hgen.
  - done.
Qed.

Lemma expire_not_positive_rejected_witness :
  setCommand (command "set" ["k"; "v"; "EX"; "0"]) empty_state
  = addReplyError "invalid expire time in set" empty_state
  /\ setCommand (command "set" ["k"; "v"; "px"; "-5"]) empty_state
     = addReplyError "invalid expire time in set" empty_state
  /\ setexCommand (command "setex" ["k"; "-1"; "v"]) empty_state
     = addReplyError "invalid expire time in setex" empty_state
  /\ psetexCommand (command "psetex" ["k"; "0"; "v"]) empty_state
     = addReplyError "invalid expire time in psetex" empty_state.
Proof.
  split; [|split; [|split]].
  - destruct (expire_not_positive_rejected
                (command "set" ["k"; "v"; "EX"; "0"]) empty_state
                (str_arg "0") 0) as (_ & Hset & _); [reflexivity | lia |].
    by apply (Hset OBJ_SET_EX UNIT_SECONDS).
  - destruct (expire_not_positive_rejected
                (command "set" ["k"; "v"; "px"; "-5"]) empty_state
                (str_arg "-5") (-5)) as (_ & Hset & _); [reflexivity | lia |].
    by apply (Hset OBJ_SET_PX UNIT_MILLISECONDS).
  - destruct (expire_not_positive_rejected
                (command "setex" ["k"; "-1"; "v"]) empty_state
                (str_arg "-1") (-1)) as (_ & _ & Hex & _);
      [reflexivity | lia |].
    by apply Hex.
  - destruct (expire_not_positive_rejected
                (command "psetex" ["k"; "0"; "v"]) empty_state
                (str_arg "0") 0) as (_ & _ & Hex & _);
      [reflexivity | lia |].
    by apply Hex.
Defined.

(** ** Further facts about the commands *)

(** The scenarios of the specification. *)
Example setrange_pads_with_zeros :
  let st := setrangeCommand (command "setrange" ["k"; "5"; "hello"])
              empty_state in
  replies st = [IntegerReply 10]
  /\ string_bytes <$> dict (db st) !! bytes "k"
     = Some (replicate 5 x00 ++ bytes "hello").
Proof. by vm_compute. Qed.

Example append_creates_then_get :
  let st1 := appendCommand (command "append" ["k"; "foo"]) empty_state in
  let st2 := getCommand (command "get" ["k"]) st1 in
  replies st2 = [IntegerReply 3; BulkReply (bytes "foo")]
  /\ faults st2 = [].
Proof. by vm_compute. Qed.

Example incr_incr_incrby :
  let st1 := incrCommand 10000 (command "incr" ["k"]) empty_state in
  let st2 := incrCommand 10000 (command "incr" ["k"]) st1 in
  let st3 := incrbyCommand 10000 (command "incrby" ["k"; "-5"]) st2 in
  replies st3 = [IntegerReply 1; IntegerReply 2; IntegerReply (-3)].
Proof. by vm_compute. Qed.

Example set_twice_is_set_once :
  let c := command "set" ["k"; "v"] in
  db (setCommand c (setCommand c empty_state)) = db (setCommand c empty_state).
Proof. by vm_compute. Qed.

Example get_on_a_list_is_wrong_type :
  let st := set_dict {[bytes "l" := mk_robj OBJ_LIST OBJ_ENCODING_QUICKLIST 1
                                      PAggregate]} empty_state in
  replies (getCommand (command "get" ["l"]) st) = [shared_wrongtypeerr]
  /\ replies (mgetCommand (command "mget" ["l"; "missing"]) st)
     = [MultiBulkLen 2; NullBulk; NullBulk].
Proof. by vm_compute. Qed.

(** * Further properties of the two files *)

(** ** q_thread.c: the life cycle of a descriptor *)

(** X1: a descriptor that has just been initialised, or cleared by
    q_thread_deinit, cannot be started: q_thread_start returns C_ERR and the
    OS threads are the ones there were, because both leave the entry
    function unset. *)
Theorem q_thread_start_needs_entry (t : QThread.q_thread) (cpu : Z)
    (os : QThread.os_state) :
  ('(_, thread) ← QThread.q_thread_init (Some t);
   QThread.q_thread_start thread cpu os)
  = QThread.Returns
      (C_ERR, Some (QThread.mk_q_thread 0 0 None None cpu), os)
  /\ (thread ← QThread.q_thread_deinit (Some t);
      QThread.q_thread_start thread cpu os)
     = QThread.Returns
         (C_ERR, Some (QThread.mk_q_thread 0 0 None None cpu), os).
Proof. split; reflexivity. Qed.



(** ** setCommand: the option loop *)

Lemma flags_below_16 (f : Z) :
  0 <= f < 16 ->
  f = 0 \/ f = 1 \/ f = 2 \/ f = 3 \/ f = 4 \/ f = 5 \/ f = 6 \/ f = 7 \/
  f = 8 \/ f = 9 \/ f = 10 \/ f = 11 \/ f = 12 \/ f = 13 \/ f = 14 \/ f = 15.
Proof. lia. Qed.

(** Case analysis over the sixteen values of the flag word. *)
Ltac flag_cases H :=
  let Hr := fresh "Hr" in
  let Hc := fresh "Hc" in
  destruct H as (Hr & H);
  pose proof (flags_below_16 _ Hr) as Hc;
  repeat (destruct Hc as [-> | Hc]); try subst;
  unfold set_flags_consistent in *;
  vm_compute in H |- *;
  intuition (try discriminate; try congruence; try lia).

Lemma set_flag_nx (flags : Z) (unit : time_unit) (expire : option robj) :
  set_flags_consistent flags unit expire ->
  has_flag flags OBJ_SET_XX = false ->
  set_flags_consistent (Z.lor flags OBJ_SET_NX) unit expire.
Proof. intros H Hx. revert Hx. flag_cases H. Qed.

Lemma set_flag_xx (flags : Z) (unit : time_unit) (expire : option robj) :
  set_flags_consistent flags unit expire ->
  has_flag flags OBJ_SET_NX = false ->
  set_flags_consistent (Z.lor flags OBJ_SET_XX) unit expire.
Proof. intros H Hx. revert Hx. flag_cases H. Qed.

Lemma set_flag_ex (flags : Z) (unit : time_unit) (expire : option robj)
    (next : robj) :
  set_flags_consistent flags unit expire ->
  has_flag flags OBJ_SET_PX = false ->
  set_flags_consistent (Z.lor flags OBJ_SET_EX) UNIT_SECONDS (Some next).
Proof. intros H Hx. revert Hx. flag_cases H. Qed.

Lemma set_flag_px (flags : Z) (unit : time_unit) (expire : option robj)
    (next : robj) :
  set_flags_consistent flags unit expire ->
  has_flag flags OBJ_SET_EX = false ->
  set_flags_consistent (Z.lor flags OBJ_SET_PX) UNIT_MILLISECONDS (Some next).
Proof. intros H Hx. revert Hx. flag_cases H. Qed.

Lemma set_options_keeps_consistent (n : nat) :
  forall (args : list robj) (flags : Z) (unit : time_unit)
         (expire : option robj) r,
    (length args <= n)%nat ->
    set_flags_consistent flags unit expire ->
    set_options args flags unit expire = Some r ->
    set_flags_consistent r.1.1 r.1.2 r.2.
Proof.
  induction n as [|n IH]; intros args flags unit expire r Hlen Hok Hrun.
  - destruct args; [|simpl in Hlen; lia]. simpl in Hrun. by injection Hrun as <-.
  - destruct args as [|a rest]; [simpl in Hrun; by injection Hrun as <-|].
    simpl in Hlen. simpl in Hrun.
    destruct (is_option (ptr_sds a) "n" "N" "x" "X"
              && negb (has_flag flags OBJ_SET_XX)) eqn:Hnx.
    { apply andb_prop in Hnx as [_ Hnx]. apply negb_true_iff in Hnx.
      eapply IH; [|by apply set_flag_nx|exact Hrun]. lia. }
    destruct (is_option (ptr_sds a) "x" "X" "x" "X"
              && negb (has_flag flags OBJ_SET_NX)) eqn:Hxx.
    { apply andb_prop in Hxx as [_ Hxx]. apply negb_true_iff in Hxx.
      eapply IH; [|by apply set_flag_xx|exact Hrun]. lia. }
    destruct rest as [|next rest']; [done|]. simpl in Hlen.
    destruct (is_option (ptr_sds a) "e" "E" "x" "X"
              && negb (has_flag flags OBJ_SET_PX)) eqn:Hex.
    { apply andb_prop in Hex as [_ Hex]. apply negb_true_iff in Hex.
      eapply IH; [|by eapply set_flag_ex|exact Hrun]. lia. }
    destruct (is_option (ptr_sds a) "p" "P" "x" "X"
              && negb (has_flag flags OBJ_SET_EX)) eqn:Hpx; [|done].
    apply andb_prop in Hpx as [_ Hpx]. apply negb_true_iff in Hpx.
    eapply IH; [|by eapply set_flag_px|exact Hrun]. lia.
Qed.

(** X3: whatever options SET is given, when the option loop of setCommand
    accepts them the flags never hold both NX and XX nor both EX and PX, an
    expire argument is handed on exactly when EX or PX is set, and the unit
    is seconds with EX and milliseconds with PX. *)
Theorem set_options_consistent (args : list robj) (flags : Z)
    (unit : time_unit) (expire : option robj) :
  set_options args OBJ_SET_NO_FLAGS UNIT_SECONDS None
  = Some (flags, unit, expire) ->
  set_flags_consistent flags unit expire.
Proof.
  intros Hrun.
  apply (set_options_keeps_consistent (length args) args OBJ_SET_NO_FLAGS
           UNIT_SECONDS None (flags, unit, expire)); [lia | | exact Hrun].
  unfold set_flags_consistent. vm_compute. intuition discriminate.
Qed.

Lemma set_options_consistent_witness :
  set_flags_consistent (Z.lor OBJ_SET_NX OBJ_SET_PX) UNIT_MILLISECONDS
    (Some (str_arg "100")).
Proof.
  apply (set_options_consistent [str_arg "nx"; str_arg "PX"; str_arg "100"]).
  reflexivity.
Defined.

(** ** SET and its variants *)

Lemma dupStringObject_key (o : robj) :
  ptr_sds (dupStringObject o) = ptr_sds o.
Proof. unfold dupStringObject. by destruct (encoding o). Qed.

Lemma lookupKey_dup (st : state) (o : robj) :
  lookupKey st (dupStringObject o) = lookupKey st o.
Proof. unfold lookupKey. by rewrite dupStringObject_key. Qed.

Lemma setGeneric_cases (c : client) (st : state) (flags : Z) (key val : robj)
    (expire : option robj) (unit : time_unit) (ok_reply abort_reply : option reply)
    (ms : option Z) :
  match expire with
  | Some e => exists v, getLongLongFromObject (Some e) = Some v /\ 0 < v
                        /\ ms = Some (match unit with
                                      | UNIT_SECONDS => to_ll (v * 1000)
                                      | UNIT_MILLISECONDS => v
                                      end)
  | None => ms = None
  end ->
  setGenericCommand c flags key val expire unit ok_reply abort_reply st
  = if (has_flag flags OBJ_SET_NX && negb (is_null (lookupKeyWrite st key)))
       || (has_flag flags OBJ_SET_XX && is_null (lookupKeyWrite st key))
    then addReply (default shared_nullbulk abort_reply) st
    else set_written key val ms ok_reply st.
Proof.
  intros Hms. unfold setGenericCommand, set_expire_arg, set_written.
  destruct expire as [e|].
  - destruct Hms as (v & He & Hv & ->).
    unfold getLongLongFromObjectOrReply. rewrite He.
    replace (v <=? 0) with false by lia.
    by destruct (_ || _).
  - subst ms. by destruct (_ || _).
Qed.

(** X4: SET is conditional under NX and XX.  With NX on a key that exists,
    or XX on a key that does not, setGenericCommand replies the abort reply
    (the null marker for SET) and writes nothing, whether or not a valid
    expire time was given; SETNX on an existing key replies 0 and writes
    nothing. *)
Theorem set_nx_xx_gate (c : client) (st : state) (flags : Z) (key val : robj)
    (expire : option robj) (unit : time_unit)
    (ok_reply abort_reply : option reply) :
  (forall e, expire = Some e ->
             exists v, getLongLongFromObject (Some e) = Some v /\ 0 < v) ->
  (has_flag flags OBJ_SET_NX = true /\ is_Some (lookupKeyWrite st key))
  \/ (has_flag flags OBJ_SET_XX = true /\ lookupKeyWrite st key = None) ->
  setGenericCommand c flags key val expire unit ok_reply abort_reply st
  = addReply (default shared_nullbulk abort_reply) st
  /\ (is_Some (lookupKeyWrite st (arg c 1)) ->
      setnxCommand c st = addReply (IntegerReply 0) st).
Proof.
  intros Hexp Hgate. split.
  - rewrite (setGeneric_cases c st flags key val expire unit ok_reply
               abort_reply
               (match expire with
                | Some e =>
                    match getLongLongFromObject (Some e) with
                    | Some v => Some (match unit with
                                      | UNIT_SECONDS => to_ll (v * 1000)
                                      | UNIT_MILLISECONDS => v
                                      end)
                    | None => None
                    end
                | None => None
                end)).
    + destruct Hgate as [[Hf [o Ho]]|[Hf Ho]]; rewrite Hf, Ho; simpl;
        [done|]. by rewrite orb_true_r.
    + destruct expire as [e|]; [|done].
      destruct (Hexp e eq_refl) as (v & Hv & Hpos). exists v. by rewrite Hv.
  - intros [o Ho]. unfold setnxCommand.
    rewrite (setGeneric_cases c st _ _ _ None _ _ _ None) by done.
    unfold lookupKeyWrite in *. rewrite lookupKey_dup, Ho. reflexivity.
Qed.

Lemma set_nx_xx_gate_witness :
  let st := setCommand (command "set" ["k"; "old"]) empty_state in
  setCommand (command "set" ["k"; "new"; "NX"]) st = addReply NullBulk st
  /\ setnxCommand (command "setnx" ["k"; "new"]) st
     = addReply (IntegerReply 0) st
  /\ setCommand (command "set" ["other"; "v"; "xx"; "EX"; "10"]) st
     = addReply NullBulk st.
Proof.
  intros st. split; [|split].
  - apply (set_nx_xx_gate (command "set" ["k"; "new"; "NX"]) st OBJ_SET_NX
             (str_arg "k") (str_arg "new") None UNIT_SECONDS None None);
      [done | left; split; [reflexivity | by eexists]].
  - apply (set_nx_xx_gate (command "setnx" ["k"; "new"]) st OBJ_SET_NX
             (str_arg "k") (str_arg "new") None UNIT_SECONDS None None);
      [done | left; split; [reflexivity | by eexists] | by eexists].
  - apply (set_nx_xx_gate (command "set" ["other"; "v"; "xx"; "EX"; "10"]) st
             (Z.lor OBJ_SET_XX OBJ_SET_EX)
             (str_arg "other") (str_arg "v") (Some (str_arg "10"))
             UNIT_SECONDS None None).
    + intros e [= <-]. exists 10. split; [reflexivity | lia].
    + right. split; reflexivity.
Defined.

Lemma set_written_fields (key val : robj) (expire : option Z)
    (ok_reply : option reply) (st : state) :
  let st' := set_written key val expire ok_reply st in
  dict (db st') = <[ptr_sds key := val]> (dict (db st))
  /\ expires (db st')
     = match expire with
       | Some ms => <[ptr_sds key := to_ll (mstime st + ms)]>
                      (delete (ptr_sds key) (expires (db st)))
       | None => delete (ptr_sds key) (expires (db st))
       end
  /\ dirty st' = dirty st + 1
  /\ replies st' = replies st ++ [default shared_ok ok_reply]
  /\ events st'
     = events st
       ++ mk_event NOTIFY_STRING "set" (ptr_sds key) (id (db st))
          :: match expire with
             | Some _ => [mk_event NOTIFY_GENERIC "expire" (ptr_sds key)
                            (id (db st))]
             | None => []
             end.
Proof.
  unfold set_written, setKey.
  destruct (lookupKeyWrite st key); destruct expire; simpl;
    rewrite <- ?app_assoc; done.
Qed.



Lemma redisDb_eq (a b : redisDb) :
  dict a = dict b -> expires a = expires b -> id a = id b -> a = b.
Proof. destruct a, b. simpl. by intros -> -> ->. Qed.

(** X6: SET without options replaces whatever the key held, of any type,
    by the given value, drops the key's expiration and touches no other key;
    it counts one mutation and replies OK, and running it a second time
    leaves the database as the first run left it. *)
Theorem set_replaces_key (c : client) (st : state) :
  drop 3 (argv c) = [] ->
  let k := ptr_sds (arg c 1) in
  let st' := setCommand c st in
  dict (db st') = <[k := dupStringObject (arg c 2)]> (dict (db st))
  /\ expires (db st') = delete k (expires (db st))
  /\ dirty st' = dirty st + 1
  /\ replies st' = replies st ++ [StatusReply "OK"]
  /\ db (setCommand c st') = db st'.
Proof.
  intros Hopt k st'.
  assert (Hset : forall s, setCommand c s
                 = set_written (dupStringObject (arg c 1))
                     (dupStringObject (arg c 2)) None None s).
  { intros s. unfold setCommand. rewrite Hopt. simpl.
    by rewrite (setGeneric_cases c s _ _ _ None _ _ _ None). }
  assert (Hfields : forall s,
            dict (db (setCommand c s))
            = <[k := dupStringObject (arg c 2)]> (dict (db s))
            /\ expires (db (setCommand c s)) = delete k (expires (db s))
            /\ dirty (setCommand c s) = dirty s + 1
            /\ replies (setCommand c s) = replies s ++ [StatusReply "OK"]
            /\ id (db (setCommand c s)) = id (db s)).
  { intros s. rewrite Hset.
    destruct (set_written_fields (dupStringObject (arg c 1))
                (dupStringObject (arg c 2)) None None s)
      as (Hd & He & Hdi & Hr & _).
    rewrite Hd, He, Hdi, Hr, dupStringObject_key.
    repeat split. unfold set_written, setKey.
    by destruct (lookupKeyWrite s _). }
  subst st'.
  destruct (Hfields st) as (Hd & He & Hdi & Hr & Hid).
  destruct (Hfields (setCommand c st)) as (Hd' & He' & _ & _ & Hid').
  repeat split; try done.
  apply redisDb_eq.
  - rewrite Hd', Hd. by rewrite insert_insert_eq.
  - rewrite He', He. by rewrite delete_delete_eq.
  - done.
Qed.

Lemma set_replaces_key_witness :
  let c := command "set" ["l"; "v"] in
  let st := setExpire (str_arg "l") 500
              (set_dict {[bytes "l" := mk_robj OBJ_LIST OBJ_ENCODING_QUICKLIST
                                         1 PAggregate]} empty_state) in
  dict (db (setCommand c st)) !! bytes "l" = Some (str_arg "v")
  /\ expires (db (setCommand c st)) !! bytes "l" = None
  /\ db (setCommand c (setCommand c st)) = db (setCommand c st).
Proof.
  intros c st.
  destruct (set_replaces_key c st eq_refl) as (Hd & He & _ & _ & Hidem).
  split; [|split; [|exact Hidem]].
  - rewrite Hd. apply lookup_insert_eq.
  - rewrite He. apply lookup_delete_eq.
Defined.

(** ** What every command does and does not do *)

Lemma only_replies_refl (st : state) : only_replies st st.
Proof. by unfold only_replies. Qed.

Lemma only_replies_addReply (r : reply) (st st' : state) :
  only_replies st st' -> only_replies st (addReply r st').
Proof. unfold only_replies. by simpl. Qed.

(** Unfolds a command down to the state constructors and splits on every
    test it makes. *)
Ltac unfold_command_body :=
  unfold getCommand, getsetCommand, getGenericCommand, getrangeCommand,
    strlenCommand, setCommand, setnxCommand, setexCommand, psetexCommand,
    setGenericCommand, set_expire_arg, setrangeCommand, setrange_target,
    appendCommand, incrCommand, decrCommand, incrbyCommand, decrbyCommand,
    incrDecrCommand, msetCommand, msetnxCommand, msetGenericCommand,
    checkStringLength, lookupKeyReadOrReply, checkType,
    getLongFromObjectOrReply, getLongLongFromObjectOrReply,
    dbUnshareStringValue, publish, addReplyColonObject, addReplyBulkCBuffer,
    addReplyBulk, addReplyLongLong, addReplyError, addReplyMultiBulkLen.

Ltac unfold_command :=
  unfold_command_body; repeat case_match; simplify_eq; simpl.

Lemma mget_only_replies (c : client) (st : state) :
  only_replies st (mgetCommand c st).
Proof.
  unfold mgetCommand.
  destruct (mget_elements (drop 1 (argv c))
              (addReplyMultiBulkLen (argc c - 1) st)) as (_ & Hd & Hdi & He).
  assert (Hrest : forall keys s,
            mstime (foldl mget_element s keys) = mstime s
            /\ touched (foldl mget_element s keys) = touched s
            /\ rcu (foldl mget_element s keys) = rcu s
            /\ realloc_in_place (foldl mget_element s keys)
               = realloc_in_place s
            /\ faults (foldl mget_element s keys) = faults s).
  { induction keys as [|key keys IH]; intros s; [done|]. simpl.
    destruct (IH (mget_element s key)) as (-> & -> & -> & -> & ->).
    unfold mget_element. by repeat case_match. }
  destruct (Hrest (drop 1 (argv c)) (addReplyMultiBulkLen (argc c - 1) st))
    as (Hm & Ht & Hr & Hp & Hf).
  unfold only_replies. by rewrite Hd, Hdi, He, Hm, Ht, Hr, Hp, Hf.
Qed.

(** X7: the commands that only read (GET, GETRANGE, MGET, STRLEN) change
    nothing but the reply sink, whatever their arguments and whatever the
    key holds: the database, the dirty counter, the notifications and the
    RCU trace are as before. *)
Theorem readers_only_reply (c : client) (st : state) :
  Forall (fun cmd => only_replies st (cmd c st)) reader_commands.
Proof.
  unfold reader_commands. repeat apply Forall_cons_2; [..|apply Forall_nil_2].
  - unfold_command; by unfold only_replies.
  - unfold_command; by unfold only_replies.
  - apply mget_only_replies.
  - unfold_command; by unfold only_replies.
Qed.

Lemma list_pair_ind {A : Type} (P : list A -> Prop) :
  P [] -> (forall x, P [x]) -> (forall x y l, P l -> P (x :: y :: l)) ->
  forall l, P l.
Proof.
  intros Hnil Hone Hstep.
  assert (Hboth : forall l, P l /\ forall x, P (x :: l)).
  { induction l as [|y l [IH1 IH2]]; [by split|].
    split; [apply IH2|]. intros x. by apply Hstep. }
  intros l. apply Hboth.
Qed.





Lemma db_extends_refl (st : state) : db_extends st st.
Proof. unfold db_extends. naive_solver. Qed.

Lemma db_extends_trans (st1 st2 st3 : state) :
  db_extends st1 st2 -> db_extends st2 st3 -> db_extends st1 st3.
Proof.
  unfold db_extends. intros [Hd1 He1] [Hd2 He2]. split; [naive_solver|].
  intros k Hk. destruct (He2 k Hk) as [Hk2|Hk2]; [|by right].
  destruct (He1 k Hk2) as [Hk1|Hk1]; [by left|]. right. by apply Hd2.
Qed.

Lemma db_extends_keeps_invariant (st st' : state) :
  db_extends st st' -> expires_in_dict st -> expires_in_dict st'.
Proof.
  unfold db_extends, expires_in_dict. intros [Hd He] Hwf k Hk.
  destruct (He k Hk) as [Hk'|Hk']; [|done]. by apply Hd, Hwf.
Qed.

(** Closes a goal [db_extends st st'] once [st'] is a composition of state
    constructors. *)
Ltac solve_db_extends :=
  unfold db_extends; simpl; repeat case_match; simpl;
  split; intros ? ?;
  rewrite ?lookup_insert, ?lookup_delete in *;
  repeat case_decide; simplify_eq; eauto; naive_solver.

Lemma mset_write_extends (args : list robj) (st : state) :
  db_extends st (mset_write args st).
Proof.
  revert st. induction args as [| |k v rest IH] using list_pair_ind;
    intros st; [apply db_extends_refl | apply db_extends_refl |].
  simpl. eapply db_extends_trans; [|apply IH].
  unfold setKey. solve_db_extends.
Qed.

Lemma mset_extends (c : client) (nx : bool) (st : state) :
  db_extends st (msetGenericCommand c nx st).
Proof.
  unfold msetGenericCommand.
  repeat case_match;
    lazymatch goal with
    | |- context [mset_write] =>
        eapply db_extends_trans;
        [apply (mset_write_extends (drop 1 (argv c)))|]
    | |- _ => idtac
    end;
    solve_db_extends.
Qed.

Lemma mget_extends (c : client) (st : state) :
  db_extends st (mgetCommand c st).
Proof.
  destruct (mget_only_replies c st) as (Hdb & _).
  unfold db_extends. rewrite Hdb. naive_solver.
Qed.

(** X9: every command keeps the invariant of the keyspace: if each key with
    an expiration time is a key of the main mapping before the command, the
    same holds after it.  No command removes a key, and an expiration is
    only ever set on the key the same command has just written. *)
Theorem commands_keep_expires_in_dict (shared_integers : Z) (c : client)
    (st : state) :
  expires_in_dict st ->
  Forall (fun cmd => expires_in_dict (cmd c st) /\ db_extends st (cmd c st))
    (string_commands shared_integers).
Proof.
  intros Hwf.
  assert (Hall : Forall (fun cmd => db_extends st (cmd c st))
                   (string_commands shared_integers)).
  { unfold string_commands, single_reply_commands.
    repeat apply Forall_cons_2; [..|apply Forall_nil_2];
      try apply mget_extends; try apply mset_extends;
      unfold_command; unfold setKey; solve_db_extends. }
  eapply Forall_impl; [exact Hall|].
  intros cmd Hext. split; [|done].
  by apply (db_extends_keeps_invariant st).
Qed.

Lemma commands_keep_expires_in_dict_witness :
  let st := setexCommand (command "setex" ["k"; "2"; "v"]) empty_state in
  expires (db st) !! bytes "k" = Some 2000
  /\ expires_in_dict st
  /\ expires_in_dict (setrangeCommand (command "setrange" ["k"; "1"; "w"]) st).
Proof.
  intros st.
  assert (H0 : expires_in_dict empty_state).
  { intros k [v Hv]. simpl in Hv. by rewrite lookup_empty in Hv. }
  pose proof (commands_keep_expires_in_dict 10000
                (command "setex" ["k"; "2"; "v"]) empty_state H0) as H1.
  rewrite Forall_forall in H1.
  assert (Hst : expires_in_dict st).
  { apply (H1 setexCommand). unfold string_commands, single_reply_commands.
    repeat constructor. }
  pose proof (commands_keep_expires_in_dict 10000
                (command "setrange" ["k"; "1"; "w"]) st Hst) as H2.
  rewrite Forall_forall in H2.
  split; [reflexivity|]. split; [exact Hst|].
  apply (H2 setrangeCommand). unfold string_commands, single_reply_commands.
  repeat constructor.
Defined.

(** Unfolds a command on a key whose lookup [H] is known. *)
Ltac unfold_command_at H :=
  unfold_command_body; unfold lookupKeyRead, lookupKeyWrite;
  rewrite ?lookupKey_dup, ?H.

(** X10: on a key that holds a value of another type than string, GET,
    GETSET, STRLEN, APPEND, INCR, DECR and, once their integer arguments
    parse, INCRBY, DECRBY, SETRANGE and GETRANGE all reply the wrong-type
    error and change nothing else; SETRANGE does so even for an empty
    value. *)
Theorem wrong_type_rejected (shared_integers : Z) (c : client) (st : state)
    (o : robj) :
  lookupKey st (arg c 1) = Some o ->
  type o <> OBJ_STRING ->
  let rejected := addReply shared_wrongtypeerr st in
  getCommand c st = rejected
  /\ getsetCommand c st = rejected
  /\ strlenCommand c st = rejected
  /\ appendCommand c st = rejected
  /\ incrCommand shared_integers c st = rejected
  /\ decrCommand shared_integers c st = rejected
  /\ (is_Some (getLongLongFromObject (Some (arg c 2))) ->
      incrbyCommand shared_integers c st = rejected
      /\ decrbyCommand shared_integers c st = rejected)
  /\ (forall offset,
         getLongLongFromObject (Some (arg c 2)) = Some offset ->
         0 <= offset <= LONG_MAX ->
         setrangeCommand c st = rejected)
  /\ (is_Some (getLongLongFromObject (Some (arg c 2))) ->
      is_Some (getLongLongFromObject (Some (arg c 3))) ->
      getrangeCommand c st = rejected).
Proof.
  intros Hk Ht rejected. subst rejected.
  assert (Hb : bool_decide (type o ≠ OBJ_STRING) = true)
    by (by apply bool_decide_eq_true_2).
  assert (Hd : forall A (x y : A),
             (if decide (type o = OBJ_STRING) then x else y) = y)
    by (intros; by rewrite decide_False).
  repeat split.
  - unfold_command_at Hk. by rewrite Hb.
  - unfold_command_at Hk. by rewrite Hb.
  - unfold_command_at Hk. by rewrite Hd.
  - unfold_command_at Hk. by rewrite Hd.
  - unfold_command_at Hk. by rewrite Hd.
  - unfold_command_at Hk. by rewrite Hd.
  - destruct H as [i Hi]. unfold_command_at Hk. by rewrite Hi, Hk, Hd.
  - destruct H as [i Hi]. unfold_command_at Hk. by rewrite Hi, Hk, Hd.
  - intros offset Ho Hr. unfold_command_at Hk. rewrite Ho.
    replace ((offset <? LONG_MIN) || (LONG_MAX <? offset)) with false
      by (symmetry; apply orb_false_iff; ll_lia).
    replace (offset <? 0) with false by lia.
    by rewrite Hk, Hd.
  - intros [i Hi] [j Hj]. unfold_command_at Hk. by rewrite Hi, Hj, Hk, Hd.
Qed.

Lemma wrong_type_rejected_witness :
  let st := set_dict {[bytes "l" := mk_robj OBJ_LIST OBJ_ENCODING_QUICKLIST 1
                                      PAggregate]} empty_state in
  appendCommand (command "append" ["l"; "x"]) st
  = addReply shared_wrongtypeerr st
  /\ incrCommand 10000 (command "incr" ["l"]) st
     = addReply shared_wrongtypeerr st
  /\ setrangeCommand (command "setrange" ["l"; "0"; EmptyString]) st
     = addReply shared_wrongtypeerr st.
Proof.
  intros st.
  assert (Hl : forall c, arg c 1 = str_arg "l" ->
                 lookupKey st (arg c 1)
                 = Some (mk_robj OBJ_LIST OBJ_ENCODING_QUICKLIST 1 PAggregate))
    by (by intros c ->).
  split; [|split].
  - by apply (wrong_type_rejected 10000 (command "append" ["l"; "x"]) st _
                (Hl (command "append" ["l"; "x"]) eq_refl)).
  - by apply (wrong_type_rejected 10000 (command "incr" ["l"]) st _
                (Hl (command "incr" ["l"]) eq_refl)).
  - destruct (wrong_type_rejected 10000
                (command "setrange" ["l"; "0"; EmptyString]) st _
                (Hl (command "setrange" ["l"; "0"; EmptyString]) eq_refl))
      as (_ & _ & _ & _ & _ & _ & _ & Hsr & _); [done|].
    apply (Hsr 0); [reflexivity | by vm_compute].
Defined.

(** ** GETRANGE, GET and STRLEN *)

(** X11: whenever getrangeCommand hands a slice to addReplyBulkCBuffer, the
    slice starts inside the string, is at least one byte long and ends
    inside the string, so that exactly the computed number of bytes is
    replied and nothing beyond the buffer is read. *)
Theorem getrange_stays_in_buffer (s : sds) (start end_ i n : Z) :
  sdslen s <= LLONG_MAX ->
  in_ll start -> in_ll end_ ->
  getrange_bounds (sdslen s) start end_ = Some (i, n) ->
  0 <= i /\ 1 <= n /\ i + n <= sdslen s
  /\ sdslen (take (Z.to_nat n) (drop (Z.to_nat i) s)) = n.
Proof.
  intros Hlen Hs He Hb.
  pose proof (sdslen_nonneg s) as Hnn.
  rewrite getrange_bounds_exact in Hb by (done || lia).
  destruct (_ && _ && _); [done|]. cbv zeta in Hb.
  destruct (_ || _) eqn:Hc; [done|].
  apply orb_false_iff in Hc as [Hc1 Hc2].
  injection Hb as <- <-.
  assert (Hi : 0 <= Z.max 0 (if start <? 0 then sdslen s + start else start))
    by lia.
  split; [lia|]. split; [lia|]. split; [lia|].
  unfold sdslen in *. rewrite length_take, length_drop. lia.
Qed.

Lemma getrange_stays_in_buffer_witness :
  getrange_bounds (sdslen (bytes "Hello World")) (-3) 100 = Some (8, 3)
  /\ sdslen (take 3 (drop 8 (bytes "Hello World"))) = 3.
Proof.
  split; [reflexivity|].
  apply (getrange_stays_in_buffer (bytes "Hello World") (-3) 100 8 3);
    [by vm_compute | by vm_compute | by vm_compute | reflexivity].
Defined.

(** X12: on a key that holds a string, GETRANGE with start 0 and end -1
    replies what GET replies, the whole value (the empty bulk string for an
    empty value), and STRLEN replies the number of bytes of that reply. *)
Theorem getrange_whole_is_get (c_range c_get c_len : client) (st : state)
    (o : robj) :
  arg c_get 1 = arg c_range 1 ->
  arg c_len 1 = arg c_range 1 ->
  lookupKeyRead st (arg c_range 1) = Some o ->
  type o = OBJ_STRING ->
  encoding o = OBJ_ENCODING_RAW \/ encoding o = OBJ_ENCODING_INT ->
  sdslen (string_bytes o) <= LLONG_MAX ->
  getLongLongFromObject (Some (arg c_range 2)) = Some 0 ->
  getLongLongFromObject (Some (arg c_range 3)) = Some (-1) ->
  getrangeCommand c_range st = addReply (BulkReply (string_bytes o)) st
  /\ getCommand c_get st = addReply (BulkReply (string_bytes o)) st
  /\ strlenCommand c_len st
     = addReply (IntegerReply (sdslen (string_bytes o))) st.
Proof.
  intros Hg Hl Hk Ht Henc Hlen Hs He.
  pose proof (sdslen_nonneg (string_bytes o)) as Hnn.
  split; [|split].
  - rewrite (getrange_on_string c_range st o 0 (-1)) by done.
    rewrite getrange_bounds_exact by (done || lia || by vm_compute).
    cbn [Z.ltb Z.compare andb]. cbv zeta. cbn [Z.ltb Z.compare].
    destruct (Z.eq_dec (sdslen (string_bytes o)) 0) as [H0|H0].
    + rewrite (sdslen_0 _ H0). reflexivity.
    + replace (Z.max 0 0 >? Z.min (sdslen (string_bytes o) - 1)
                                  (Z.max 0 (sdslen (string_bytes o) + -1)))
        with false by lia.
      replace (sdslen (string_bytes o) =? 0) with false by lia.
      cbn [orb].
      replace (Z.min (sdslen (string_bytes o) - 1)
                 (Z.max 0 (sdslen (string_bytes o) + -1)) - Z.max 0 0 + 1)
        with (sdslen (string_bytes o)) by lia.
      unfold sdslen. rewrite Nat2Z.id. simpl. by rewrite firstn_all.
  - unfold getCommand, getGenericCommand, lookupKeyReadOrReply.
    rewrite Hg, Hk. by rewrite bool_decide_eq_false_2 by (by intros ?).
  - unfold strlenCommand, lookupKeyReadOrReply, checkType.
    rewrite Hl, Hk. by rewrite decide_True.
Qed.

Lemma getrange_whole_is_get_witness :
  let st := incrbyCommand 10000 (command "incrby" ["n"; "1234567"])
              empty_state in
  getrangeCommand (command "getrange" ["n"; "0"; "-1"]) st
  = addReply (BulkReply (bytes "1234567")) st
  /\ getCommand (command "get" ["n"]) st
     = addReply (BulkReply (bytes "1234567")) st
  /\ strlenCommand (command "strlen" ["n"]) st = addReply (IntegerReply 7) st.
Proof.
  intros st.
  apply (getrange_whole_is_get (command "getrange" ["n"; "0"; "-1"])
           (command "get" ["n"]) (command "strlen" ["n"]) st
           (mk_robj OBJ_STRING OBJ_ENCODING_INT 1 (PLong 1234567)));
    [reflexivity | reflexivity | reflexivity | reflexivity | by right
    | by vm_compute | reflexivity | reflexivity].
Defined.

(** ** SETRANGE *)

(** The state a SETRANGE that writes leaves: the key holds a raw string
    whose buffer is the old bytes grown with zeros and overwritten at the
    offset. *)
Lemma setrange_writes (c : client) (st : state) (offset : Z) (old : sds) :
  getLongLongFromObject (Some (arg c 2)) = Some offset ->
  0 <= offset ->
  sdslen (ptr_sds (arg c 3)) <> 0 ->
  offset + sdslen (ptr_sds (arg c 3)) <= 512 * 1024 * 1024 ->
  match lookupKeyWrite st (arg c 1) with
  | Some o => type o = OBJ_STRING /\ old = string_bytes o
  | None => old = []
  end ->
  let value := ptr_sds (arg c 3) in
  let st' := setrangeCommand c st in
  let new := memcpy_at (sdsgrowzero old (offset + sdslen value)) offset value in
  (exists o', dict (db st') !! ptr_sds (arg c 1) = Some o'
              /\ type o' = OBJ_STRING /\ encoding o' = OBJ_ENCODING_RAW
              /\ ptr o' = PSds new)
  /\ (forall k, k <> ptr_sds (arg c 1) ->
                dict (db st') !! k = dict (db st) !! k)
  /\ expires (db st') = expires (db st)
  /\ replies st' = replies st ++ [IntegerReply (sdslen new)]
  /\ dirty st' = dirty st + 1
  /\ exists oc, rcu st' = rcu st ++ [rcu_assign_pointer (ptr_sds (arg c 1))
                                       (PSds new);
                                     synchronize_rcu; sdsfree oc].
Proof.
  intros Ho H0 Hv Hmax Hold value st' new. subst st'.
  pose proof (sdslen_nonneg (ptr_sds (arg c 3))) as Hnn.
  rewrite (setrange_offset_accepted c st offset) by (done || ll_lia).
  unfold setrange_target, checkStringLength.
  rewrite to_ll_to_size_t by ll_lia.
  rewrite (to_size_t_id (offset + sdslen (ptr_sds (arg c 3)))) by lia.
  replace (sdslen (ptr_sds (arg c 3)) =? 0) with false by lia.
  replace (offset + sdslen (ptr_sds (arg c 3)) >? 512 * 1024 * 1024)
    with false by lia.
  replace (sdslen (ptr_sds (arg c 3)) >? 0) with true by lia.
  destruct (lookupKeyWrite st (arg c 1)) as [o|] eqn:Hk.
  - destruct Hold as [Ht ->]. unfold checkType. rewrite decide_True by done.
    unfold dbUnshareStringValue.
    destruct (bool_decide (refcount o ≠ 1)
              || bool_decide (encoding o ≠ OBJ_ENCODING_RAW)) eqn:Hshared.
    + unfold publish, sdsdup. simpl. rewrite lookup_insert_eq.
      repeat split; eauto.
      * intros k Hne. by rewrite !lookup_insert_ne.
      * rewrite <- app_assoc. eauto.
    + apply orb_false_iff in Hshared as [_ Henc].
      apply bool_decide_eq_false_1 in Henc.
      assert (Hraw : encoding o = OBJ_ENCODING_RAW)
        by (destruct (decide (encoding o = OBJ_ENCODING_RAW));
            [done | by destruct Henc]).
      assert (Hbytes : string_bytes o = ptr_sds o)
        by (unfold string_bytes, sdsEncodedObject; by rewrite Hraw).
      subst new value. rewrite Hbytes.
      unfold publish, sdsdup. simpl. rewrite lookup_insert_eq.
      repeat split; eauto.
      * intros k Hne. by rewrite lookup_insert_ne.
      * rewrite <- app_assoc. eauto.
  - subst old. unfold publish, sdsdup.
    cbn [addReplyLongLong addReply incr_dirty notifyKeyspaceEvent
           signalModifiedKey rcu_log set_dict set_db dbAdd db dict expires
           replies dirty rcu set_ptr ptr_sds ptr createObject type encoding].
    rewrite lookup_insert_eq.
    assert (Hzero : sdsgrowzero
                      (sdsnewlen_zero (offset + sdslen (ptr_sds (arg c 3))))
                      (offset + sdslen (ptr_sds (arg c 3)))
                    = sdsgrowzero [] (offset + sdslen (ptr_sds (arg c 3)))).
    { unfold sdsgrowzero, sdsnewlen_zero. unfold sdslen in *.
      rewrite length_replicate. simpl.
      replace (offset + Z.of_nat (length (ptr_sds (arg c 3)))
               <=? Z.of_nat (Z.to_nat
                     (offset + Z.of_nat (length (ptr_sds (arg c 3))))))
        with true by (symmetry; apply Z.leb_le; lia).
      change (Z.of_nat 0) with 0.
      replace (offset + Z.of_nat (length (ptr_sds (arg c 3))) <=? 0)
        with false by lia.
      by rewrite Z.sub_0_r. }
    subst new value. rewrite Hzero.
    repeat split; eauto.
    + intros k Hne. by rewrite !lookup_insert_ne.
    + rewrite <- app_assoc. eauto.
Qed.

(** The written buffer in terms of the old bytes alone. *)
Lemma memcpy_grow_closed_form (old value : sds) (offset : Z) :
  0 <= offset ->
  let off := Z.to_nat offset in
  let new := memcpy_at (sdsgrowzero old (offset + sdslen value)) offset value in
  new = take off old ++ replicate (off - length old) x00 ++ value
          ++ drop (off + length value) old
  /\ sdslen new = Z.max (sdslen old) (offset + sdslen value)
  /\ take (length value) (drop off new) = value.
Proof.
  intros H0 off new.
  assert (Hgrow : sdsgrowzero old (offset + sdslen value)
                  = old ++ replicate (off + length value - length old) x00).
  { unfold sdsgrowzero, sdslen. subst off.
    destruct (Z.leb_spec (offset + Z.of_nat (length value))
                (Z.of_nat (length old))) as [Hle|Hgt].
    - replace (Z.to_nat offset + length value - length old)%nat with 0%nat
        by lia.
      simpl. by rewrite app_nil_r.
    - f_equal. f_equal. lia. }
  assert (Hnew : new = take off old ++ replicate (off - length old) x00
                         ++ value ++ drop (off + length value) old).
  { subst new. unfold memcpy_at. rewrite Hgrow. fold off.
    rewrite take_app, drop_app, take_replicate, drop_replicate.
    rewrite <- !app_assoc. f_equal. f_equal.
    - f_equal. lia.
    - f_equal.
      replace (off + length value - length old - (off + length value - length old))%nat
        with 0%nat by lia.
      simpl. by rewrite app_nil_r. }
  split; [exact Hnew|]. split.
  - rewrite Hnew. unfold sdslen.
    rewrite !length_app, length_take, length_replicate, length_drop.
    subst off. lia.
  - rewrite Hnew.
    assert (Hpre : length (take off old ++ replicate (off - length old) x00)
                   = off)
      by (rewrite length_app, length_take, length_replicate; lia).
    rewrite (app_assoc (take off old)).
    rewrite <- Hpre at 1. rewrite drop_app_length.
    by rewrite take_app_length.
Qed.

(** X13: a SETRANGE that writes (valid offset, non-empty value, result
    within the ceiling, key missing or holding a string) leaves under the
    key a raw string made of the old bytes before the offset, zero bytes
    where the old value was shorter than the offset, the value, and the old
    bytes behind the written window; it replies the new length, the larger
    of the old length and offset + length of the value, counts one mutation
    and leaves every other key and all expirations alone. *)
Theorem setrange_overwrites_window (c : client) (st : state) (offset : Z)
    (old : sds) :
  getLongLongFromObject (Some (arg c 2)) = Some offset ->
  0 <= offset ->
  sdslen (ptr_sds (arg c 3)) <> 0 ->
  offset + sdslen (ptr_sds (arg c 3)) <= 512 * 1024 * 1024 ->
  match lookupKeyWrite st (arg c 1) with
  | Some o => type o = OBJ_STRING /\ old = string_bytes o
  | None => old = []
  end ->
  let value := ptr_sds (arg c 3) in
  let off := Z.to_nat offset in
  let st' := setrangeCommand c st in
  (exists o', dict (db st') !! ptr_sds (arg c 1) = Some o'
              /\ type o' = OBJ_STRING
              /\ string_bytes o'
                 = take off old ++ replicate (off - length old) x00 ++ value
                     ++ drop (off + length value) old)
  /\ (forall k, k <> ptr_sds (arg c 1) ->
                dict (db st') !! k = dict (db st) !! k)
  /\ expires (db st') = expires (db st)
  /\ replies st'
     = replies st ++ [IntegerReply (Z.max (sdslen old) (offset + sdslen value))]
  /\ dirty st' = dirty st + 1.
Proof.
  intros Ho H0 Hv Hmax Hold value off st'.
  destruct (setrange_writes c st offset old Ho H0 Hv Hmax Hold)
    as ((o' & Hd & Ht & Henc & Hp) & Hother & Hexp & Hr & Hdi & _).
  destruct (memcpy_grow_closed_form old value offset H0) as (Hnew & Hlen & _).
  fold value in Hd, Hp, Hr. fold st' in Hd, Hother, Hexp, Hr, Hdi.
  split; [|by rewrite Hr, Hlen].
  exists o'. split; [done|]. split; [done|].
  unfold string_bytes, sdsEncodedObject, ptr_sds.
  rewrite Henc, Hp. simpl. exact Hnew.
Qed.

Lemma setrange_overwrites_window_witness :
  let st := setCommand (command "set" ["k"; "Hello World"]) empty_state in
  let st' := setrangeCommand (command "setrange" ["k"; "6"; "Redis"]) st in
  (exists o', dict (db st') !! bytes "k" = Some o'
              /\ string_bytes o' = bytes "Hello Redis")
  /\ replies st' = replies st ++ [IntegerReply 11].
Proof.
  intros st st'.
  destruct (setrange_overwrites_window (command "setrange" ["k"; "6"; "Redis"])
              st 6 (bytes "Hello World"))
    as ((o' & Hd & _ & Hb) & _ & _ & Hr & _);
    [reflexivity | lia | by vm_compute | by vm_compute
    | split; reflexivity |].
  split; [|exact Hr]. exists o'. split; [exact Hd | exact Hb].
Defined.

(** X14: what SETRANGE has written, GETRANGE reads back: after a SETRANGE
    that writes [value] at [offset], GETRANGE from [offset] to
    [offset + length - 1] on the same key replies exactly [value]. *)
Theorem setrange_then_getrange (c c_get : client) (st : state) (offset : Z)
    (old : sds) :
  getLongLongFromObject (Some (arg c 2)) = Some offset ->
  0 <= offset ->
  sdslen (ptr_sds (arg c 3)) <> 0 ->
  offset + sdslen (ptr_sds (arg c 3)) <= 512 * 1024 * 1024 ->
  match lookupKeyWrite st (arg c 1) with
  | Some o => type o = OBJ_STRING /\ old = string_bytes o
  | None => old = []
  end ->
  arg c_get 1 = arg c 1 ->
  getLongLongFromObject (Some (arg c_get 2)) = Some offset ->
  getLongLongFromObject (Some (arg c_get 3))
  = Some (offset + sdslen (ptr_sds (arg c 3)) - 1) ->
  sdslen old <= 512 * 1024 * 1024 ->
  let st' := setrangeCommand c st in
  getrangeCommand c_get st' = addReply (BulkReply (ptr_sds (arg c 3))) st'.
Proof.
  intros Ho H0 Hv Hmax Hold Hkey Hs He Holdlen st'.
  pose proof (sdslen_nonneg (ptr_sds (arg c 3))) as Hnn.
  pose proof (sdslen_nonneg old) as Hnn'.
  destruct (setrange_writes c st offset old Ho H0 Hv Hmax Hold)
    as ((o' & Hd & Ht & Henc & Hp) & _).
  destruct (memcpy_grow_closed_form old (ptr_sds (arg c 3)) offset H0)
    as (_ & Hlen & Hback).
  fold st' in Hd.
  set (new := memcpy_at (sdsgrowzero old (offset + sdslen (ptr_sds (arg c 3))))
                offset (ptr_sds (arg c 3))) in *.
  assert (Hbytes : string_bytes o' = new).
  { unfold string_bytes, sdsEncodedObject, ptr_sds. by rewrite Henc, Hp. }
  rewrite (getrange_on_string c_get st' o' offset
             (offset + sdslen (ptr_sds (arg c 3)) - 1));
    [|by rewrite Hkey | done | by left | done | done].
  rewrite Hbytes, getrange_bounds_exact by (rewrite ?Hlen; ll_lia).
  cbv zeta. rewrite Hlen.
  replace (offset <? 0) with false by lia.
  replace (offset + sdslen (ptr_sds (arg c 3)) - 1 <? 0) with false by lia.
  cbn [andb].
  replace (Z.max 0 offset) with offset by lia.
  replace (Z.min (Z.max (sdslen old) (offset + sdslen (ptr_sds (arg c 3))) - 1)
             (Z.max 0 (offset + sdslen (ptr_sds (arg c 3)) - 1)))
    with (offset + sdslen (ptr_sds (arg c 3)) - 1) by lia.
  replace (offset >? offset + sdslen (ptr_sds (arg c 3)) - 1) with false by lia.
  replace (Z.max (sdslen old) (offset + sdslen (ptr_sds (arg c 3))) =? 0)
    with false by lia.
  cbn [orb].
  replace (offset + sdslen (ptr_sds (arg c 3)) - 1 - offset + 1)
    with (sdslen (ptr_sds (arg c 3))) by lia.
  replace (Z.to_nat (sdslen (ptr_sds (arg c 3))))
    with (length (ptr_sds (arg c 3))) by (unfold sdslen; lia).
  by rewrite Hback.
Qed.

Lemma setrange_then_getrange_witness :
  let st' := setrangeCommand (command "setrange" ["k"; "5"; "hello"])
               empty_state in
  getrangeCommand (command "getrange" ["k"; "5"; "9"]) st'
  = addReply (BulkReply (bytes "hello")) st'.
Proof.
  apply (setrange_then_getrange (command "setrange" ["k"; "5"; "hello"])
           (command "getrange" ["k"; "5"; "9"]) empty_state 5 []);
    [reflexivity | lia | by vm_compute | by vm_compute | reflexivity
    | reflexivity | reflexivity | reflexivity | by vm_compute].
Defined.

(** ** APPEND *)

Lemma dupStringObject_raw (o : robj) :
  encoding o = OBJ_ENCODING_RAW ->
  dupStringObject o = createStringObject (ptr_sds o).
Proof. unfold dupStringObject. by intros ->. Qed.



(** The buffer statements of appendCommand on an object whose buffer holds
    [s]: whether the allocator extends the buffer where it lies or moves
    it, the pointer [oc] read after sdscatlen is not one the command may
    release. *)
Lemma append_buffers_run (in_place : bool) (key : robj) (s t : sds) :
  append_buffers in_place key t (buffers_of s)
  = (sdslen (s ++ t),
     if in_place then
       mk_buffers [(s ++ t, false)] 0 []
         [rcu_assign_pointer (ptr_sds key) (PSds (s ++ t)); synchronize_rcu;
          sdsfree (PSds (s ++ t))]
         [published_written 0; published_freed 0; use_after_free 0]
     else
       mk_buffers [(s, false); (s ++ t, true)] 1 []
         [rcu_assign_pointer (ptr_sds key) (PSds (s ++ t)); synchronize_rcu;
          sdsfree (PSds s)]
         [published_freed 0; double_free 0]).
Proof. by destruct in_place. Qed.

(** X16: APPEND on a key that holds a string, within the ceiling, misuses
    the value buffer.  appendCommand hands [o->ptr] itself to sdscatlen and
    reads [oc = o->ptr] afterwards.  When the allocator has moved the
    buffer, the buffer readers can reach was released by that call, before
    any publish, and sdsfree releases it a second time.  When the allocator
    has extended it where it lies, the bytes were written under the readers,
    [oc] is the published buffer itself, sdsfree releases it, and
    [sdslen(o->ptr)] reads it after its release. *)
Theorem append_existing_string_faults (c : client) (st : state) (o : robj) :
  let key := dupStringObject (arg c 1) in
  let val := dupStringObject (arg c 2) in
  lookupKeyWrite st key = Some o ->
  type o = OBJ_STRING ->
  stringObjectLen o + sdslen (ptr_sds val) <= 512 * 1024 * 1024 ->
  let st' := appendCommand c st in
  let nc := string_bytes o ++ ptr_sds val in
  faults st'
  = faults st
    ++ (if realloc_in_place st
        then [published_written 0; published_freed 0; use_after_free 0]
        else [published_freed 0; double_free 0])
  /\ rcu st'
     = rcu st
       ++ [rcu_assign_pointer (ptr_sds key) (PSds nc); synchronize_rcu;
           sdsfree (PSds (if realloc_in_place st then nc
                          else string_bytes o))].
Proof.
  intros key val Hk Ht Hlen st' nc. subst st' nc.
  pose proof (sdslen_nonneg (string_bytes o)) as Hn1.
  pose proof (sdslen_nonneg (ptr_sds val)) as Hn2.
  unfold stringObjectLen in Hlen.
  unfold appendCommand. fold key val. rewrite Hk.
  unfold checkType. rewrite decide_True by done.
  unfold checkStringLength, stringObjectLen.
  rewrite to_ll_to_size_t by ll_lia.
  replace (_ >? 512 * 1024 * 1024) with false by lia.
  assert (Hun : exists o',
             dbUnshareStringValue key o st
             = (set_dict (<[ptr_sds key := o']> (dict (db st))) st, o')
             /\ ptr_sds o' = string_bytes o).
  { unfold dbUnshareStringValue.
    destruct (bool_decide (refcount o ≠ 1)
              || bool_decide (encoding o ≠ OBJ_ENCODING_RAW)) eqn:Hshared.
    - by eexists.
    - apply orb_false_iff in Hshared as [_ Henc].
      apply bool_decide_eq_false_1 in Henc.
      assert (Hraw : encoding o = OBJ_ENCODING_RAW)
        by (destruct (decide (encoding o = OBJ_ENCODING_RAW));
            [done | by destruct Henc]).
      exists o. split.
      + unfold set_dict, set_db. destruct st as [[d e i] ? ? ? ? ? ? ? ?].
        unfold lookupKeyWrite, lookupKey in Hk. cbn in *.
        by rewrite insert_id.
      + unfold string_bytes, sdsEncodedObject. by rewrite Hraw. }
  destruct Hun as (o' & -> & Hbytes).
  cbn [realloc_in_place set_dict set_db].
  rewrite Hbytes, append_buffers_run.
  destruct (realloc_in_place st); by cbn.
Qed.

(** APPEND after SET, and after an APPEND that created the key, under both
    behaviours of the allocator. *)
Lemma append_existing_string_faults_witness :
  let set_k := setCommand (command "set" ["k"; "Hello"]) in
  let append_k := appendCommand (command "append" ["k"; " World"]) in
  let in_place := mk_state (mk_db ∅ ∅ 0) 0 0 [] [] [] [] true [] in
  faults (append_k (set_k empty_state)) = [published_freed 0; double_free 0]
  /\ faults (append_k (set_k in_place))
     = [published_written 0; published_freed 0; use_after_free 0]
  /\ faults (append_k empty_state) = []
  /\ faults (append_k (append_k empty_state))
     = [published_freed 0; double_free 0].
Proof.
  intros set_k append_k in_place.
  destruct (append_existing_string_faults (command "append" ["k"; " World"])
              (set_k empty_state) (str_arg "Hello"))
    as [H1 _]; [reflexivity | reflexivity | by vm_compute |].
  destruct (append_existing_string_faults (command "append" ["k"; " World"])
              (set_k in_place) (str_arg "Hello"))
    as [H2 _]; [reflexivity | reflexivity | by vm_compute |].
  destruct (append_existing_string_faults (command "append" ["k"; " World"])
              (append_k empty_state) (str_arg " World"))
    as [H3 _]; [reflexivity | reflexivity | by vm_compute |].
  split; [exact H1|]. split; [exact H2|]. split; [reflexivity | exact H3].
Defined.

(** ** INCR, DECR, INCRBY and DECRBY without overflow *)

(** The state an increment within the signed 64-bit range leaves. *)
Lemma incrDecr_adds (shared_integers : Z) (c : client) (st : state)
    (o : option robj) (v i : Z) :
  lookupKeyWrite st (arg c 1) = o ->
  (forall o', o = Some o' -> type o' = OBJ_STRING) ->
  getLongLongFromObject o = Some v ->
  in_ll v -> in_ll i -> in_ll (v + i) ->
  let st' := incrDecrCommand shared_integers c i st in
  (exists o', lookupKeyWrite st' (arg c 1) = Some o'
              /\ type o' = OBJ_STRING
              /\ encoding o' = OBJ_ENCODING_INT
              /\ ptr o' = PLong (v + i))
  /\ (forall k, k <> ptr_sds (arg c 1) ->
                dict (db st') !! k = dict (db st) !! k)
  /\ expires (db st') = expires (db st)
  /\ replies st' = replies st ++ [IntegerReply (v + i)]
  /\ dirty st' = dirty st + 1.
Proof.
  intros Hk Ht Hv Hvr Hir Hin st'. subst st'.
  rewrite (incrDecr_prefix shared_integers c st o v i) by done.
  destruct (incr_overflows v i) eqn:Hov;
    [by apply (incr_overflows_spec v i Hvr Hir) in Hov|].
  cbv zeta. rewrite (to_ll_id (v + i)) by done.
  assert (Hnew : forall new : robj,
            encoding new = OBJ_ENCODING_INT -> ptr new = PLong (v + i) ->
            default 0 (string2ll (string_bytes new)) = v + i).
  { intros new He Hp. unfold string_bytes, sdsEncodedObject, ptr_long.
    rewrite He, Hp. simpl. by rewrite string2ll_ll2string. }
  assert (Hcreated : let new := createStringObjectFromLongLong
                                  shared_integers (v + i) in
            type new = OBJ_STRING /\ encoding new = OBJ_ENCODING_INT
            /\ ptr new = PLong (v + i)).
  { unfold createStringObjectFromLongLong, LONG_MIN, LONG_MAX.
    destruct (_ && _); [done|].
    replace ((LLONG_MIN <=? v + i) && (v + i <=? LLONG_MAX)) with true;
      [done|]. symmetry. apply andb_true_iff. ll_lia. }
  destruct Hcreated as (Hct & Hce & Hcp).
  unfold addReplyColonObject, lookupKeyWrite, lookupKey.
  destruct o as [o'|].
  - destruct (_ && _ && _ && _ && _) eqn:Hfast.
    + repeat (apply andb_prop in Hfast as [Hfast ?]).
      assert (He : encoding o' = OBJ_ENCODING_INT)
        by (by eapply bool_decide_eq_true_1).
      unfold publish.
      cbn [addReply incr_dirty notifyKeyspaceEvent signalModifiedKey rcu_log
             set_dict set_db db dict expires replies dirty].
      rewrite lookup_insert_eq, (Hnew (set_ptr (PLong (v + i)) o')) by done.
      split; [|split; [intros k Hne; by rewrite lookup_insert_ne | done]].
      eexists. split; [done|]. split; [exact (Ht o' eq_refl)|]. by split.
    + cbn [addReply incr_dirty notifyKeyspaceEvent signalModifiedKey
             dbOverwrite set_dict set_db db dict expires replies dirty].
      rewrite lookup_insert_eq, Hnew by done.
      split; [eauto|split; [intros k Hne; by rewrite lookup_insert_ne | done]].
  - cbn [addReply incr_dirty notifyKeyspaceEvent signalModifiedKey
           dbAdd set_dict set_db db dict expires replies dirty].
    rewrite lookup_insert_eq, Hnew by done.
    split; [eauto|split; [intros k Hne; by rewrite lookup_insert_ne | done]].
Qed.

Lemma integer_object_value (o : robj) (n : Z) :
  encoding o = OBJ_ENCODING_INT -> ptr o = PLong n ->
  getLongLongFromObject (Some o) = Some n /\ string_bytes o = ll2string n.
Proof.
  intros He Hp.
  unfold getLongLongFromObject, string_bytes, sdsEncodedObject, ptr_long.
  by rewrite He, Hp.
Qed.

(** X17: increments add up.  On a key holding the integer [v] (or missing,
    which reads as 0), an increment by [a] followed by one by [b], neither
    leaving the signed 64-bit range, replies [v + a] and then [v + a + b]
    and leaves the key holding [v + a + b]; in particular an increment
    followed by the opposite decrement restores [v]. *)
Theorem increments_add_up (shared_integers : Z) (c : client) (st : state)
    (o : option robj) (v a b : Z) :
  lookupKeyWrite st (arg c 1) = o ->
  (forall o', o = Some o' -> type o' = OBJ_STRING) ->
  getLongLongFromObject o = Some v ->
  in_ll v -> in_ll a -> in_ll b -> in_ll (v + a) -> in_ll (v + a + b) ->
  let st2 := incrDecrCommand shared_integers c b
               (incrDecrCommand shared_integers c a st) in
  getLongLongFromObject (lookupKeyWrite st2 (arg c 1)) = Some (v + a + b)
  /\ replies st2
     = replies st ++ [IntegerReply (v + a); IntegerReply (v + a + b)]
  /\ dirty st2 = dirty st + 2
  /\ (b = - a ->
      getLongLongFromObject (lookupKeyWrite st2 (arg c 1)) = Some v).
Proof.
  intros Hk Ht Hv Hvr Hva Hvb Hin1 Hin2 st2. subst st2.
  destruct (incrDecr_adds shared_integers c st o v a Hk Ht Hv Hvr Hva Hin1)
    as ((o1 & Hl1 & Ht1 & He1 & Hp1) & _ & _ & Hr1 & Hd1).
  destruct (integer_object_value o1 (v + a) He1 Hp1) as [Hg1 _].
  destruct (incrDecr_adds shared_integers c
              (incrDecrCommand shared_integers c a st) (Some o1) (v + a) b)
    as ((o2 & Hl2 & Ht2 & He2 & Hp2) & _ & _ & Hr2 & Hd2);
    [done | by intros ? [= <-] | done | done | done | done |].
  destruct (integer_object_value o2 (v + a + b) He2 Hp2) as [Hg2 _].
  rewrite Hl2, Hg2, Hr2, Hr1, Hd2, Hd1, <- app_assoc.
  repeat split; [lia|]. intros ->. f_equal. lia.
Qed.

Lemma increments_add_up_witness :
  let c := command "incr" ["k"] in
  let st := setCommand (command "set" ["k"; "41"]) empty_state in
  let st2 := decrCommand 10000 c (incrCommand 10000 c st) in
  replies st2 = replies st ++ [IntegerReply 42; IntegerReply 41]
  /\ getLongLongFromObject (lookupKeyWrite st2 (arg c 1)) = Some 41.
Proof.
  intros c st st2.
  destruct (increments_add_up 10000 c st (Some (str_arg "41")) 41 1 (-1))
    as (_ & Hr & _ & Hback);
    [reflexivity | by intros ? [= <-] | reflexivity | by vm_compute
    | by vm_compute | by vm_compute | by vm_compute | by vm_compute |].
  split; [exact Hr | by apply Hback].
Defined.

(** X18: the value an increment leaves is a string like any other: after
    an increment within range, GET replies the decimal digits of the new
    integer and STRLEN their number. *)
Theorem incr_then_get (shared_integers : Z) (c c_get c_len : client)
    (st : state) (o : option robj) (v i : Z) :
  lookupKeyWrite st (arg c 1) = o ->
  (forall o', o = Some o' -> type o' = OBJ_STRING) ->
  getLongLongFromObject o = Some v ->
  in_ll v -> in_ll i -> in_ll (v + i) ->
  arg c_get 1 = arg c 1 ->
  arg c_len 1 = arg c 1 ->
  let st' := incrDecrCommand shared_integers c i st in
  getCommand c_get st' = addReply (BulkReply (ll2string (v + i))) st'
  /\ strlenCommand c_len st'
     = addReply (IntegerReply (sdslen (ll2string (v + i)))) st'.
Proof.
  intros Hk Ht Hv Hvr Hir Hin Hg Hl st'.
  destruct (incrDecr_adds shared_integers c st o v i Hk Ht Hv Hvr Hir Hin)
    as ((o' & Hl' & Ht' & He' & Hp') & _).
  fold st' in Hl'. unfold lookupKeyWrite in Hl'.
  destruct (integer_object_value o' (v + i) He' Hp') as [_ Hb].
  split.
  - unfold getCommand, getGenericCommand, lookupKeyReadOrReply, lookupKeyRead.
    rewrite Hg, Hl'. rewrite bool_decide_eq_false_2 by (by intros ?).
    unfold addReplyBulk. by rewrite Hb.
  - unfold strlenCommand, lookupKeyReadOrReply, lookupKeyRead, checkType.
    rewrite Hl, Hl'. rewrite decide_True by done.
    unfold stringObjectLen. by rewrite Hb.
Qed.

Lemma incr_then_get_witness :
  let st' := decrbyCommand 10000 (command "decrby" ["k"; "1000"])
               empty_state in
  getCommand (command "get" ["k"]) st'
  = addReply (BulkReply (bytes "-1000")) st'
  /\ strlenCommand (command "strlen" ["k"]) st'
     = addReply (IntegerReply 5) st'.
Proof.
  intros st'.
  apply (incr_then_get 10000 (command "decrby" ["k"; "1000"])
           (command "get" ["k"]) (command "strlen" ["k"]) empty_state None
           0 (-1000));
    [reflexivity | done | reflexivity | by vm_compute | by vm_compute
    | by vm_compute | reflexivity | reflexivity].
Defined.

(** X19: an increment needs a decimal 64-bit integer: when the key holds a
    string that is not one, INCR and DECR reply the not-an-integer error and
    change nothing, as do INCRBY and DECRBY once their argument parses; and
    INCRBY and DECRBY with an argument that does not parse reply that error
    whatever the key holds. *)
Theorem incr_needs_integer (shared_integers : Z) (c : client) (st : state) :
  let rejected :=
    addReplyError "value is not an integer or out of range" st in
  (forall o, lookupKeyWrite st (arg c 1) = Some o ->
             type o = OBJ_STRING ->
             getLongLongFromObject (Some o) = None ->
             incrCommand shared_integers c st = rejected
             /\ decrCommand shared_integers c st = rejected
             /\ (is_Some (getLongLongFromObject (Some (arg c 2))) ->
                 incrbyCommand shared_integers c st = rejected
                 /\ decrbyCommand shared_integers c st = rejected))
  /\ (getLongLongFromObject (Some (arg c 2)) = None ->
      incrbyCommand shared_integers c st = rejected
      /\ decrbyCommand shared_integers c st = rejected).
Proof.
  intros rejected. subst rejected. split.
  - intros o Hk Ht Hv.
    assert (Hcore : forall i, incrDecrCommand shared_integers c i st
                    = addReplyError "value is not an integer or out of range"
                        st).
    { intros i. unfold incrDecrCommand, checkType.
      rewrite Hk. rewrite decide_True by done.
      unfold getLongLongFromObjectOrReply. by rewrite Hv. }
    split; [apply Hcore|]. split; [apply Hcore|].
    intros [i Hi]. unfold incrbyCommand, decrbyCommand,
      getLongLongFromObjectOrReply. rewrite Hi. split; apply Hcore.
  - intros Hi. unfold incrbyCommand, decrbyCommand,
      getLongLongFromObjectOrReply. by rewrite Hi.
Qed.

Lemma incr_needs_integer_witness :
  let st := setCommand (command "set" ["k"; "abc"]) empty_state in
  incrCommand 10000 (command "incr" ["k"]) st
  = addReplyError "value is not an integer or out of range" st
  /\ incrbyCommand 10000 (command "incrby" ["k"; "1.5"]) st
     = addReplyError "value is not an integer or out of range" st.
Proof.
  intros st. split.
  - destruct (incr_needs_integer 10000 (command "incr" ["k"]) st)
      as [Hkey _].
    by destruct (Hkey (str_arg "abc") eq_refl eq_refl eq_refl) as [Hincr _].
  - destruct (incr_needs_integer 10000 (command "incrby" ["k"; "1.5"]) st)
      as [_ Harg].
    by destruct (Harg eq_refl) as [Hincrby _].
Defined.

(** ** MSET, MGET and GETSET *)

Lemma get_mget_replies_header (c : client) (st : state) :
  replies (mgetCommand c st)
  = replies st ++ MultiBulkLen (argc c - 1)
                    :: map (mget_reply (dict (db st))) (drop 1 (argv c)).
Proof.
  unfold mgetCommand.
  destruct (mget_elements (drop 1 (argv c))
              (addReplyMultiBulkLen (argc c - 1) st)) as (Hr & _).
  rewrite Hr. cbn [addReplyMultiBulkLen addReply replies db].
  by rewrite <- app_assoc.
Qed.

Lemma last_value_snoc (k : sds) (pairs : list (robj * robj))
    (kv : robj * robj) :
  last_value k (pairs ++ [kv])
  = if decide (pair_key kv = k) then Some (pair_val kv)
    else last_value k pairs.
Proof. unfold last_value. by rewrite foldl_app. Qed.

Lemma last_value_distinct (pairs : list (robj * robj)) (kv : robj * robj) :
  NoDup (map pair_key pairs) -> kv ∈ pairs ->
  last_value (pair_key kv) pairs = Some (pair_val kv).
Proof.
  induction pairs as [|x pairs IH] using rev_ind; intros Hnd Hin.
  - by apply elem_of_nil in Hin.
  - rewrite last_value_snoc. rewrite map_app in Hnd.
    apply NoDup_app in Hnd as (Hnd & Hfresh & _).
    apply elem_of_app in Hin as [Hin|Hin].
    + rewrite decide_False; [by apply IH|].
      intros Heq. apply (Hfresh (pair_key kv)).
      * apply list_elem_of_fmap. by exists kv.
      * rewrite <- Heq. simpl. by left.
    + apply list_elem_of_singleton in Hin as ->. by rewrite decide_True.
Qed.

(** The state MSET, or MSETNX when no key is busy, leaves. *)
Lemma mset_generic_writes (name : string) (pairs : list (robj * robj))
    (nx : bool) (st : state) :
  nx = false \/ (forall kv, kv ∈ pairs -> dict (db st) !! pair_key kv = None) ->
  let st' := msetGenericCommand (mset_client name pairs) nx st in
  replies st' = replies st ++ [if nx then shared_cone else shared_ok]
  /\ (forall k, dict (db st') !! k
                = match last_value k pairs with
                  | Some v => Some v
                  | None => dict (db st) !! k
                  end)
  /\ dirty st' = dirty st + Z.of_nat (length pairs).
Proof.
  intros Hgo st'. subst st'. unfold msetGenericCommand.
  rewrite mset_client_argc.
  replace (Z.rem (2 * Z.of_nat (length pairs) + 1) 2) with 1
    by (rewrite Z.rem_mod_nonneg by lia;
        rewrite Z.add_comm, Z.mul_comm; by rewrite Z_mod_plus_full).
  replace (Z.quot (2 * Z.of_nat (length pairs) + 1 - 1) 2)
    with (Z.of_nat (length pairs))
    by (rewrite Z.quot_div_nonneg by lia;
        replace (2 * Z.of_nat (length pairs) + 1 - 1)
          with (Z.of_nat (length pairs) * 2) by lia;
        by rewrite Z.div_mul).
  change (drop 1 (argv (mset_client name pairs)))
    with (concat (map (fun kv : robj * robj => [kv.1; kv.2]) pairs)).
  cbn [Z.eqb].
  assert (Hpass : nx && negb (mset_busykeys st
                    (concat (map (fun kv : robj * robj => [kv.1; kv.2]) pairs))
                    0 =? 0) = false).
  { destruct Hgo as [->|Hfree]; [done|].
    rewrite (mset_busykeys_none st pairs 0 Hfree). by rewrite andb_false_r. }
  rewrite Hpass.
  destruct (mset_write_pairs pairs st) as (Hd & Hr & Hdi & _).
  cbn [addReply incr_dirty replies dirty db]. rewrite Hr, Hdi, Hd.
  repeat split. intros k. apply foldl_insert_last_value.
Qed.

(** X20: MSET always writes: it replies OK, counts one mutation per pair and
    leaves each key holding the value of its pair (keys pairwise distinct);
    an MGET of the same keys then replies exactly those values, in order.
    With an even argument count MSET and MSETNX reply the arity error and
    change nothing. *)
Theorem mset_then_mget (name : string) (pairs : list (robj * robj))
    (st : state) (c_odd : client) :
  NoDup (map pair_key pairs) ->
  let st' := msetCommand (mset_client name pairs) st in
  let c_mget := mk_client (str_arg "mget" :: map fst pairs) "mget" in
  replies st' = replies st ++ [StatusReply "OK"]
  /\ dirty st' = dirty st + Z.of_nat (length pairs)
  /\ (forall kv, kv ∈ pairs ->
                 dict (db st') !! pair_key kv = Some (pair_val kv))
  /\ replies (mgetCommand c_mget st')
     = replies st' ++ MultiBulkLen (Z.of_nat (length pairs))
                       :: map (fun kv => BulkReply (string_bytes (pair_val kv)))
                            pairs
  /\ (Z.rem (argc c_odd) 2 = 0 ->
      msetCommand c_odd st
      = addReplyError "wrong number of arguments for MSET" st
      /\ msetnxCommand c_odd st
         = addReplyError "wrong number of arguments for MSET" st).
Proof.
  intros Hnd st' c_mget.
  destruct (mset_generic_writes name pairs false st (or_introl eq_refl))
    as (Hr & Hd & Hdi).
  fold (msetCommand (mset_client name pairs) st) in Hr, Hd, Hdi.
  fold st' in Hr, Hd, Hdi.
  assert (Hheld : forall kv, kv ∈ pairs ->
                    dict (db st') !! pair_key kv = Some (pair_val kv)).
  { intros kv Hin. rewrite Hd. by rewrite last_value_distinct. }
  split; [exact Hr|]. split; [exact Hdi|]. split; [exact Hheld|]. split.
  - rewrite (get_mget_replies_header c_mget st'). f_equal. f_equal.
    + unfold argc, c_mget. cbn [argv length]. rewrite length_map. f_equal. lia.
    + change (drop 1 (argv c_mget)) with (map fst pairs).
      rewrite map_map. apply map_ext_in.
      intros kv Hin. apply list_elem_of_In in Hin. unfold mget_reply.
      fold (pair_key kv). replace (ptr_sds kv.1) with (pair_key kv)
        by (unfold pair_key; apply dupStringObject_key).
      rewrite (Hheld kv Hin).
      assert (Ht : type (pair_val kv) = OBJ_STRING)
        by (unfold pair_val, dupStringObject; by destruct (encoding kv.2)).
      by rewrite decide_True.
  - intros Heven. unfold msetCommand, msetnxCommand, msetGenericCommand.
    by rewrite Heven.
Qed.

Lemma mset_then_mget_witness :
  let st' := msetCommand (command "mset" ["a"; "1"; "b"; "2"]) empty_state in
  replies (mgetCommand (command "mget" ["a"; "b"]) st')
  = [StatusReply "OK"; MultiBulkLen 2; BulkReply (bytes "1");
     BulkReply (bytes "2")].
Proof.
  intros st'.
  destruct (mset_then_mget "mset"
              [(str_arg "a", str_arg "1"); (str_arg "b", str_arg "2")]
              empty_state (command "mset" ["a"]))
    as (Hr & _ & _ & Hm & _).
  { apply (bool_decide_unpack _). by vm_compute. }
  change (replies (mgetCommand (command "mget" ["a"; "b"]) st')
          = replies st' ++ [MultiBulkLen 2; BulkReply (bytes "1");
                            BulkReply (bytes "2")]) in Hm.
  rewrite Hm. change (replies st' = replies empty_state ++ [StatusReply "OK"])
    in Hr. by rewrite Hr.
Defined.

(** X21: GETSET on a key that is missing or holds a string replies the old
    value (the null marker when there was none) and installs the new one:
    the key then holds the new value without expiration, one mutation is
    counted, and GET replies the new value. *)
Theorem getset_swaps (c c_get : client) (st : state) :
  (forall o, lookupKeyRead st (arg c 1) = Some o -> type o = OBJ_STRING) ->
  encoding (arg c 2) = OBJ_ENCODING_RAW ->
  arg c_get 1 = arg c 1 ->
  let st' := getsetCommand c st in
  replies st'
  = replies st ++ [match lookupKeyRead st (arg c 1) with
                   | Some o => BulkReply (string_bytes o)
                   | None => NullBulk
                   end]
  /\ dict (db st') !! ptr_sds (arg c 1)
     = Some (createStringObject (ptr_sds (arg c 2)))
  /\ expires (db st') !! ptr_sds (arg c 1) = None
  /\ dirty st' = dirty st + 1
  /\ getCommand c_get st' = addReply (BulkReply (ptr_sds (arg c 2))) st'.
Proof.
  intros Ht Hraw Hg st'.
  assert (Hst : exists r,
             r = match lookupKeyRead st (arg c 1) with
                 | Some o => BulkReply (string_bytes o)
                 | None => NullBulk
                 end
             /\ st' = incr_dirty 1
                        (notifyKeyspaceEvent NOTIFY_STRING "set"
                           (dupStringObject (arg c 1))
                           (setKey (dupStringObject (arg c 1))
                              (dupStringObject (arg c 2)) (addReply r st)))).
  { subst st'. unfold getsetCommand, getGenericCommand, lookupKeyReadOrReply.
    destruct (lookupKeyRead st (arg c 1)) as [o|] eqn:Hk.
    - rewrite bool_decide_eq_false_2 by (intros Hne; by apply Hne, Ht).
      eexists. split; reflexivity.
    - eexists. split; reflexivity. }
  destruct Hst as (r & Hr & Hst). rewrite <- Hr.
  destruct (setKey_dict (dupStringObject (arg c 1)) (dupStringObject (arg c 2))
              (addReply r st)) as (Hd & Hrep & Hdi & _).
  assert (Hexp : expires (db (setKey (dupStringObject (arg c 1))
                                (dupStringObject (arg c 2)) (addReply r st)))
                 = delete (ptr_sds (arg c 1)) (expires (db st))).
  { unfold setKey. rewrite <- (dupStringObject_key (arg c 1)).
    by destruct (lookupKeyWrite _ _). }
  rewrite dupStringObject_key in Hd.
  assert (Hdict : dict (db st') !! ptr_sds (arg c 1)
                  = Some (createStringObject (ptr_sds (arg c 2)))).
  { rewrite Hst. cbn [incr_dirty notifyKeyspaceEvent db dict].
    rewrite Hd, lookup_insert_eq. by rewrite (dupStringObject_raw _ Hraw). }
  split; [|split; [exact Hdict|split; [|split]]].
  - rewrite Hst. cbn [incr_dirty notifyKeyspaceEvent replies]. by rewrite Hrep.
  - rewrite Hst. cbn [incr_dirty notifyKeyspaceEvent db expires].
    rewrite Hexp. apply lookup_delete_eq.
  - rewrite Hst. cbn [incr_dirty notifyKeyspaceEvent dirty].
    by rewrite Hdi.
  - unfold getCommand, getGenericCommand, lookupKeyReadOrReply, lookupKeyRead,
      lookupKey.
    rewrite Hg, Hdict. reflexivity.
Qed.

Lemma getset_swaps_witness :
  let st := setexCommand (command "setex" ["k"; "10"; "old"]) empty_state in
  let st' := getsetCommand (command "getset" ["k"; "new"]) st in
  replies st' = replies st ++ [BulkReply (bytes "old")]
  /\ expires (db st') !! bytes "k" = None
  /\ getCommand (command "get" ["k"]) st'
     = addReply (BulkReply (bytes "new")) st'.
Proof.
  intros st st'.
  destruct (getset_swaps (command "getset" ["k"; "new"])
              (command "get" ["k"]) st)
    as (Hr & _ & He & _ & Hg);
    [by intros o [= <-] | reflexivity | reflexivity |].
  split; [exact Hr|]. split; [exact He | exact Hg].
Defined.

(** ** The buffers of SETRANGE *)

(** The buffer statements of setrangeCommand on an object whose buffer holds
    [s], whatever the allocator does when the copy has to grow. *)
Lemma setrange_buffers_run (in_place : bool) (key : robj) (offset : Z)
    (value s : sds) :
  let new := memcpy_at (sdsgrowzero s (to_size_t (offset + sdslen value)))
               offset value in
  let '(len, m) :=
    setrange_buffers in_place key offset value (buffers_of s) in
  len = sdslen new
  /\ misuses m = []
  /\ bytes_at (o_ptr m) m = new
  /\ allocated (o_ptr m) m = true
  /\ (forall a, a <> o_ptr m -> allocated a m = false)
  /\ unpublished m = []
  /\ calls m = [rcu_assign_pointer (ptr_sds key) (PSds new); synchronize_rcu;
                sdsfree (PSds s)].
Proof.
  intros new. subst new.
  assert (Hg : (to_size_t (offset + sdslen value) <=? sdslen s) = true ->
               sdsgrowzero s (to_size_t (offset + sdslen value)) = s)
    by (unfold sdsgrowzero; by intros ->).
  unfold setrange_buffers, sdsdup_at, sdsgrowzero_at, sdsdup.
  destruct (to_size_t (offset + sdslen value) <=? sdslen s) eqn:Hn.
  - rewrite Hg by done. cbn. rewrite Hn. cbn. repeat split; try done.
    intros a Ha. by destruct a as [|[|a]].
  - destruct in_place; cbn; rewrite Hn; cbn; repeat split; try done.
    + intros a Ha. by destruct a as [|[|a]].
    + intros a Ha. by destruct a as [|[|[|a]]].
Qed.

(** A zero-filled buffer grown to its own length is the empty buffer grown
    to that length. *)
Lemma grow_zero_filled (n : Z) :
  0 <= n -> sdsgrowzero (sdsnewlen_zero n) n = sdsgrowzero [] n.
Proof.
  intros Hn. unfold sdsgrowzero, sdsnewlen_zero, sdslen.
  rewrite length_replicate. simpl.
  replace (n <=? Z.of_nat (Z.to_nat n)) with true
    by (symmetry; apply Z.leb_le; lia).
  change (Z.of_nat 0) with 0.
  destruct (Z.leb_spec n 0) as [H0|H0].
  - by replace n with 0 by lia.
  - by rewrite Z.sub_0_r.
Qed.

(** X22: the buffer statements of setrangeCommand keep to the writer's
    protocol.  On the buffer [old] that [o->ptr] holds when they start (the
    bytes of the stored string, or the zero-filled buffer of a key just
    created), and whether or not the allocator moves the copy when it grows:
    no buffer is misused; the original is copied before anything is written,
    the copy is published, and the original is released after
    synchronize_rcu; in the end the published buffer is the only one
    allocated.  The bytes published are the ones setrangeCommand installs
    under the key and the length read from [o->ptr] is the one it
    replies. *)
Theorem setrange_buffers_safe (in_place : bool) (c : client) (st : state)
    (offset : Z) (old : sds) :
  getLongLongFromObject (Some (arg c 2)) = Some offset ->
  0 <= offset ->
  sdslen (ptr_sds (arg c 3)) <> 0 ->
  offset + sdslen (ptr_sds (arg c 3)) <= 512 * 1024 * 1024 ->
  match lookupKeyWrite st (arg c 1) with
  | Some o => type o = OBJ_STRING /\ old = string_bytes o
  | None => old = sdsnewlen_zero (offset + sdslen (ptr_sds (arg c 3)))
  end ->
  let value := ptr_sds (arg c 3) in
  let st' := setrangeCommand c st in
  let run := setrange_buffers in_place (arg c 1) offset value
               (buffers_of old) in
  let len := fst run in
  let m := snd run in
  misuses m = []
  /\ allocated (o_ptr m) m = true
  /\ (forall a, a <> o_ptr m -> allocated a m = false)
  /\ unpublished m = []
  /\ calls m
     = [rcu_assign_pointer (ptr_sds (arg c 1)) (PSds (bytes_at (o_ptr m) m));
        synchronize_rcu; sdsfree (PSds old)]
  /\ (exists o', dict (db st') !! ptr_sds (arg c 1) = Some o'
                 /\ ptr o' = PSds (bytes_at (o_ptr m) m))
  /\ replies st' = replies st ++ [IntegerReply len].
Proof.
  intros Ho H0 Hv Hmax Hold value st' run len m. subst len m run.
  pose proof (sdslen_nonneg (ptr_sds (arg c 3))) as Hnn.
  pose proof (setrange_buffers_run in_place (arg c 1) offset value old)
    as Hrun.
  destruct (setrange_buffers in_place (arg c 1) offset value
              (buffers_of old)) as [len m].
  destruct Hrun as (Hlen & Hmis & Hbytes & Hlive & Hdead & Hun & Hcalls).
  cbn [fst snd]. rewrite Hbytes, Hlen.
  assert (Hnew : memcpy_at
                   (sdsgrowzero
                      (match lookupKeyWrite st (arg c 1) with
                       | Some _ => old
                       | None => []
                       end) (offset + sdslen value)) offset value
                 = memcpy_at
                     (sdsgrowzero old (to_size_t (offset + sdslen value)))
                     offset value).
  { subst value. rewrite to_size_t_id by lia.
    destruct (lookupKeyWrite st (arg c 1)); [done|].
    subst old. by rewrite grow_zero_filled by lia. }
  destruct (setrange_writes c st offset
              (match lookupKeyWrite st (arg c 1) with
               | Some _ => old
               | None => []
               end) Ho H0 Hv Hmax)
    as ((o' & Hk & _ & _ & Hp) & _ & _ & Hr & _).
  { by destruct (lookupKeyWrite st (arg c 1)). }
  fold value in Hp, Hr. rewrite Hnew in Hp, Hr.
  repeat split; try done. by exists o'.
Qed.

(** SETRANGE k 6 Redis on a key holding "Hello World", the buffer being
    moved or not. *)
Lemma setrange_buffers_safe_witness :
  let c := command "setrange" ["k"; "6"; "Redis"] in
  let st := setCommand (command "set" ["k"; "Hello World"]) empty_state in
  let m := snd (setrange_buffers false (arg c 1) 6 (bytes "Redis")
                  (buffers_of (bytes "Hello World"))) in
  misuses m = []
  /\ calls m = [rcu_assign_pointer (bytes "k") (PSds (bytes "Hello Redis"));
                synchronize_rcu; sdsfree (PSds (bytes "Hello World"))]
  /\ replies (setrangeCommand c st) = replies st ++ [IntegerReply 11].
Proof.
  intros c st m.
  destruct (setrange_buffers_safe false c st 6 (bytes "Hello World"))
    as (Hm & _ & _ & _ & Hc & _ & Hr);
    [reflexivity | lia | by vm_compute | by vm_compute
    | split; reflexivity |].
  split; [exact Hm|]. split; [exact Hc | exact Hr].
Defined.

(** ** SETRANGE with nothing to write *)

(** X23: SETRANGE with an empty value on a key that holds a string replies
    the current length of the value and changes nothing, whatever the
    non-negative offset, even one beyond the 512 MiB ceiling; with a
    negative offset SETRANGE replies the out-of-range error before it looks
    at the key or at the value. *)
Theorem setrange_nothing_to_write (c : client) (st : state) (offset : Z) :
  getLongLongFromObject (Some (arg c 2)) = Some offset ->
  LONG_MIN <= offset <= LONG_MAX ->
  (offset < 0 ->
   setrangeCommand c st = addReplyError "offset is out of range" st)
  /\ (forall o, 0 <= offset ->
                sdslen (ptr_sds (arg c 3)) = 0 ->
                lookupKeyWrite st (arg c 1) = Some o ->
                type o = OBJ_STRING ->
                setrangeCommand c st
                = addReply (IntegerReply (stringObjectLen o)) st).
Proof.
  intros Ho Hr. split.
  - intros Hneg.
    unfold setrangeCommand, getLongFromObjectOrReply,
      getLongLongFromObjectOrReply.
    rewrite Ho.
    replace ((offset <? LONG_MIN) || (LONG_MAX <? offset)) with false
      by (symmetry; apply orb_false_iff; lia).
    by replace (offset <? 0) with true by lia.
  - intros o H0 Hv Hk Ht.
    rewrite (setrange_offset_accepted c st offset) by (done || lia).
    unfold setrange_target. rewrite Hk. unfold checkType.
    rewrite decide_True by done. by rewrite Hv.
Qed.

Lemma setrange_nothing_to_write_witness :
  let st := setCommand (command "set" ["k"; "abc"]) empty_state in
  setrangeCommand (command "setrange" ["k"; "-1"; "x"]) st
  = addReplyError "offset is out of range" st
  /\ setrangeCommand
       (command "setrange" ["k"; "9000000000000"; EmptyString]) st
     = addReply (IntegerReply 3) st.
Proof.
  intros st. split.
  - destruct (setrange_nothing_to_write
                (command "setrange" ["k"; "-1"; "x"]) st (-1))
      as [Hneg _]; [reflexivity | by vm_compute |].
    apply Hneg. lia.
  - destruct (setrange_nothing_to_write
                (command "setrange" ["k"; "9000000000000"; EmptyString]) st
                9000000000000)
      as [_ Hempty]; [reflexivity | by vm_compute |].
    apply (Hempty (str_arg "abc")); [lia | reflexivity | reflexivity
                                    | reflexivity].
Defined.
